(** * Flood monitoring for Sri Lanka: the join and classification pipeline

    A shallow embedding of [sri_lanka_floods.py] (the classifier, the
    readings deduplication, the station join, the location risk check, the
    rivers and the flooding summary), of the classifier and the nearest
    station of [flood_lookup.py] and of the console report of
    [dashboard_legacy.py], with the properties the specification states
    about them and further properties of the code.

    The responses of the map service are taken in the shape its layers
    give them: the attributes and the geometry of a feature are objects,
    names and basins are text, coordinates are numbers and the paths of a
    river are a list; any of them may be missing or null where the records
    below have an option.  The four values of a reading that the
    classifier converts are arbitrary JSON values.

    Python floats are IEEE 754 binary64 values; they are modelled with the
    standard library's [spec_float] at precision 53 and maximal exponent
    1024, so comparisons, NaN and infinities behave as they do in the
    interpreter.  Exceptions are modelled with an error monad. *)

From Stdlib Require Import ZArith Lia SpecFloat Ascii String.
From stdpp Require Import base option list strings gmap sorting.

Local Open Scope Z_scope.

(** ** Exceptions *)

Inductive exn := TypeError | ValueError | OverflowError.

Inductive result (A : Type) :=
| Ok (a : A)
| Raise (e : exn).
Arguments Ok {A} a.
Arguments Raise {A} e.

#[global] Instance result_ret : MRet result := fun _ a => Ok a.

#[global] Instance result_bind : MBind result := fun _ _ k r =>
  match r with
  | Ok a => k a
  | Raise e => Raise e
  end.

(** ** Binary64 floats *)

Module F64.

Definition prec : Z := 53.
Definition emax : Z := 1024.

Definition float := spec_float.

Definition add : float -> float -> float := SFadd prec emax.
Definition sub : float -> float -> float := SFsub prec emax.
Definition mul : float -> float -> float := SFmul prec emax.
Definition div : float -> float -> float := SFdiv prec emax.
Definition sqrt : float -> float := SFsqrt prec emax.
Definition ltb : float -> float -> bool := SFltb.
Definition leb : float -> float -> bool := SFleb.

Definition is_nan (x : float) : bool :=
  match x with S754_nan => true | _ => false end.

Definition is_inf (x : float) : bool :=
  match x with S754_infinity _ => true | _ => false end.

Definition is_finite (x : float) : bool :=
  match x with S754_zero _ | S754_finite _ _ _ => true | _ => false end.

(** The nearest float to the integer [z] (ties to even; infinite when
    the rounded value is out of range). *)
Definition of_Z (z : Z) : float := binary_normalize prec emax z 0 false.

(** The nearest float to [m / d] for [0 < d] (ties to even), with the
    sign [neg]. *)
Definition of_ratio (neg : bool) (m : Z) (d : Z) : float :=
  match m with
  | Z0 => S754_zero neg
  | _ =>
      let '(q, e, l) := SFdiv_core_binary prec emax m 0 d 0 in
      binary_round_aux prec emax neg q e l
  end.

(** The nearest float to [m * 10 ^ e10], for [0 <= m]: what the
    interpreter's string to float conversion computes from the digits
    [m] and the decimal exponent [e10]. *)
Definition of_decimal (neg : bool) (m : Z) (e10 : Z) : float :=
  match e10 with
  | Zneg p => of_ratio neg m (10 ^ Zpos p)
  | _ =>
      let n := m * 10 ^ e10 in
      binary_normalize prec emax (if neg then - n else n) 0 neg
  end.

Definition zero : float := S754_zero false.
Definition one : float := of_Z 1.
Definition two : float := of_Z 2.
Definition nan : float := S754_nan.
Definition inf : float := S754_infinity false.

End F64.

Abbreviation float := F64.float.

(** ** Python values and the [float] builtin *)

(** The values a decoded JSON attribute can hold.  [POther] stands for
    the arrays and objects that have an element and [PEmpty] for the empty
    array and the empty object: the program never looks into them, but a
    condition tells the empty ones from the others. *)
Inductive pyval :=
| PNone
| PBool (b : bool)
| PInt (z : Z)
| PFloat (f : float)
| PStr (s : string)
| POther
| PEmpty.

(** [float(str)]: surrounding whitespace is dropped, then the text must be
    an optional sign followed by [inf], [infinity], [nan] (in any case) or
    a decimal number with optional fraction and exponent, where single
    underscores may separate digits.  Strings are ASCII. *)
Module Strtod.

(** The whitespace that the conversion skips: tab, line feed, vertical
    tab, form feed, carriage return and space. *)
Definition is_space (c : ascii) : bool :=
  let n := Z.of_N (N_of_ascii c) in
  ((9 <=? n) && (n <=? 13)) || (n =? 32).

Definition digit_val (c : ascii) : option Z :=
  let n := Z.of_N (N_of_ascii c) in
  if (48 <=? n) && (n <=? 57) then Some (n - 48) else None.

Definition lower (c : ascii) : ascii :=
  let n := N_of_ascii c in
  if ((65 <=? n) && (n <=? 90))%N then ascii_of_N (n + 32) else c.

Fixpoint lstrip (l : list ascii) : list ascii :=
  match l with
  | c :: l' => if is_space c then lstrip l' else l
  | [] => []
  end.

Definition strip (l : list ascii) : list ascii :=
  rev (lstrip (rev (lstrip l))).

Definition sign (l : list ascii) : bool * list ascii :=
  match l with
  | "+"%char :: l' => (false, l')
  | "-"%char :: l' => (true, l')
  | _ => (false, l)
  end.

(** The digits after the first one of a digit part: [m] is the value
    read so far and [n] the number of digits read. *)
Fixpoint digitpart_tail (m n : Z) (l : list ascii) : Z * Z * list ascii :=
  match l with
  | c :: l' =>
      match digit_val c with
      | Some d => digitpart_tail (10 * m + d) (n + 1) l'
      | None =>
          if Ascii.eqb c "_" then
            match l' with
            | c' :: l'' =>
                match digit_val c' with
                | Some d => digitpart_tail (10 * m + d) (n + 1) l''
                | None => (m, n, l)
                end
            | [] => (m, n, l)
            end
          else (m, n, l)
      end
  | [] => (m, n, l)
  end.

Definition digitpart (m n : Z) (l : list ascii) : option (Z * Z * list ascii) :=
  match l with
  | c :: l' =>
      match digit_val c with
      | Some d => Some (digitpart_tail (10 * m + d) (n + 1) l')
      | None => None
      end
  | [] => None
  end.

(** [number ::= [digitpart] "." digitpart | digitpart ["."]]: the
    digits read as one integer and the count of those after the point. *)
Definition number (l : list ascii) : option (Z * Z * list ascii) :=
  match digitpart 0 0 l with
  | Some (m, _, r) =>
      match r with
      | "."%char :: r' =>
          match digitpart m 0 r' with
          | Some res => Some res
          | None => Some (m, 0, r')
          end
      | _ => Some (m, 0, r)
      end
  | None =>
      match l with
      | "."%char :: r' => digitpart 0 0 r'
      | _ => None
      end
  end.

Definition exponent (l : list ascii) : option Z :=
  match l with
  | [] => Some 0
  | c :: r =>
      if Ascii.eqb (lower c) "e" then
        let '(neg, r') := sign r in
        match digitpart 0 0 r' with
        | Some (v, _, []) => Some (if neg then - v else v)
        | _ => None
        end
      else None
  end.

Definition floatnumber (neg : bool) (l : list ascii) : option float :=
  match number l with
  | Some (m, k, r) =>
      match exponent r with
      | Some e => Some (F64.of_decimal neg m (e - k))
      | None => None
      end
  | None => None
  end.

Definition parse (s : string) : option float :=
  let '(neg, body) := sign (strip (list_ascii_of_string s)) in
  let word := string_of_list_ascii (map lower body) in
  if String.eqb word "inf" || String.eqb word "infinity" then
    Some (S754_infinity neg)
  else if String.eqb word "nan" then Some S754_nan
  else floatnumber neg body.

End Strtod.

(** [float(v)] *)
Definition py_float (v : pyval) : result float :=
  match v with
  | PNone | POther | PEmpty => Raise TypeError
  | PBool b => Ok (if b then F64.one else F64.zero)
  | PInt z =>
      let f := F64.of_Z z in
      if F64.is_inf f then Raise OverflowError else Ok f
  | PFloat f => Ok f
  | PStr s =>
      match Strtod.parse s with
      | Some f => Ok f
      | None => Raise ValueError
      end
  end.

(** ** The status classifier *)

Inductive status :=
| NORMAL | ALERT | MINOR_FLOOD | MAJOR_FLOOD | NO_DATA | UNKNOWN.

#[global] Instance status_eq_dec : EqDecision status.
Proof. solve_decision. Defined.

(** [_classify] of [sri_lanka_floods.py] *)
Definition _classify (wl alert minor major : pyval) : result status :=
  match
    (wl ← py_float wl; alert ← py_float alert;
     minor ← py_float minor; major ← py_float major;
     Ok (wl, alert, minor, major))
  with
  | Raise TypeError | Raise ValueError => Ok UNKNOWN
  | Raise e => Raise e
  | Ok (wl, alert, minor, major) =>
      if F64.ltb wl alert then Ok NORMAL
      else if F64.ltb wl minor then Ok ALERT
      else if F64.ltb wl major then Ok MINOR_FLOOD
      else Ok MAJOR_FLOOD
  end.

(** ** Gauge readings *)

(** The attributes of one row of the gauges layer.  A key that the row
    does not carry reads as [None] / [PNone], as [dict.get] gives it. *)
Record gauge_attrs := {
  gauge : option string;
  water_level : pyval;
  alertpull : pyval;
  minorpull : pyval;
  majorpull : pyval;
  CreationDate : option Z;
}.

Definition is_none (v : pyval) : bool :=
  match v with PNone => true | _ => false end.

(** [classify_status] of [flood_lookup.py] *)
Definition classify_status (attrs : gauge_attrs) : result status :=
  let wl := water_level attrs in
  let alert := alertpull attrs in
  let minor := minorpull attrs in
  let major := majorpull attrs in
  if is_none wl || is_none alert || is_none minor || is_none major
  then Ok UNKNOWN
  else
    match
      (wl ← py_float wl; alert ← py_float alert;
       minor ← py_float minor; major ← py_float major;
       Ok (wl, alert, minor, major))
    with
    | Raise TypeError | Raise ValueError => Ok UNKNOWN
    | Raise e => Raise e
    | Ok (wl, alert, minor, major) =>
        if F64.ltb wl alert then Ok NORMAL
        else if F64.ltb wl minor then Ok ALERT
        else if F64.ltb wl major then Ok MINOR_FLOOD
        else Ok MAJOR_FLOOD
    end.

(** The loop of [_fetch_latest_readings] over the rows of the response,
    in the order the service returned them: a row is kept when its gauge
    name is non-empty and not yet in [latest]. *)
Definition latest_step (latest : gmap string gauge_attrs) (a : gauge_attrs)
  : gmap string gauge_attrs :=
  match gauge a with
  | Some g =>
      if bool_decide (g ≠ "") && bool_decide (latest !! g = None)
      then <[g := a]> latest
      else latest
  | None => latest
  end.

Definition _fetch_latest_readings (features : list gauge_attrs)
  : gmap string gauge_attrs :=
  foldl latest_step ∅ features.

(** [_parse_timestamp]: the instant in epoch milliseconds that is rendered
    as an ISO string, [None] when the value is missing, zero or outside the
    years [datetime] can represent. *)
Definition _parse_timestamp (ms : option Z) : option Z :=
  match ms with
  | Some z =>
      if z =? 0 then None
      else if (-62135596800000 <=? z) && (z <? 253402300800000) then Some z
      else None
  | None => None
  end.

(** ** Stations *)

(** One feature of the hydrostations layer: the attributes [station] and
    [basin] and the geometry [x] (longitude) and [y] (latitude), each
    [None] when the key is missing or null. *)
Record station_feature := {
  f_station : option string;
  f_basin : option string;
  f_x : option float;
  f_y : option float;
}.

Record station_record := {
  st_name : string;
  st_basin : string;
  st_lat : option float;
  st_lon : option float;
  st_status : status;
  st_water_level : pyval;
  st_thresholds : option (pyval * pyval * pyval);
  st_updated : option Z;
}.

(** [str.isspace] on an ASCII character: the whitespace of [float] and
    the separators 0x1C to 0x1F. *)
Definition str_isspace (c : ascii) : bool :=
  let n := Z.of_N (N_of_ascii c) in
  ((9 <=? n) && (n <=? 13)) || ((28 <=? n) && (n <=? 32)).

Fixpoint str_lstrip (l : list ascii) : list ascii :=
  match l with
  | c :: l' => if str_isspace c then str_lstrip l' else l
  | [] => []
  end.

Definition strip_chars (l : list ascii) : list ascii :=
  rev (str_lstrip (rev (str_lstrip l))).

(** [str.strip] *)
Definition str_strip (s : string) : string :=
  string_of_list_ascii (strip_chars (list_ascii_of_string s)).

(** One iteration of the loop of [get_all_stations]: [None] when the
    entry is skipped. *)
Definition station_row (readings : gmap string gauge_attrs) (s : station_feature)
  : result (option station_record) :=
  let name := default "" (f_station s) in
  if bool_decide (name = "") || bool_decide (f_x s = None) then Ok None
  else
    let reading := readings !! name in
    let wl := from_option water_level PNone reading in
    status ←
      match reading with
      | Some r => _classify wl (alertpull r) (minorpull r) (majorpull r)
      | None => Ok NO_DATA
      end;
    Ok (Some {|
      st_name := name;
      st_basin := str_strip (default "" (f_basin s));
      st_lat := f_y s;
      st_lon := f_x s;
      st_status := status;
      st_water_level := wl;
      st_thresholds :=
        (fun r => (alertpull r, minorpull r, majorpull r)) <$> reading;
      st_updated := _parse_timestamp (reading ≫= CreationDate);
    |}).

Fixpoint join_stations (readings : gmap string gauge_attrs)
    (stations : list station_feature) : result (list station_record) :=
  match stations with
  | [] => Ok []
  | s :: rest =>
      row ← station_row readings s;
      result ← join_stations readings rest;
      Ok (match row with Some r => r :: result | None => result end)
  end.

(** [get_all_stations], on the two responses it fetches. *)
Definition get_all_stations (stations : list station_feature)
    (gauges : list gauge_attrs) : result (list station_record) :=
  join_stations (_fetch_latest_readings gauges) stations.

(** ** Geodesy *)

(** The C library functions behind [math.sin], [math.cos], [math.atan2]
    and the float power operator.  They are not part of the repository and
    their results depend on the platform, so the development is parametric
    in them. *)
Record libm := {
  c_sin : float -> float;
  c_cos : float -> float;
  c_atan2 : float -> float -> float;
  c_pow : float -> float -> float;
}.

(** The interpreter's wrapper around a one-argument C function: a NaN
    from a number, or an infinity from a finite number, is a
    [ValueError]. *)
Definition math_1 (f : float -> float) (x : float) : result float :=
  let r := f x in
  if F64.is_nan r && negb (F64.is_nan x) then Raise ValueError
  else if F64.is_inf r && F64.is_finite x then Raise ValueError
  else Ok r.

(** The wrapper around a two-argument C function. *)
Definition math_2 (f : float -> float -> float) (x y : float) : result float :=
  let r := f x y in
  if F64.is_nan r && negb (F64.is_nan x) && negb (F64.is_nan y)
  then Raise ValueError
  else if F64.is_inf r && F64.is_finite x && F64.is_finite y
  then Raise OverflowError
  else Ok r.

Definition pi : float := S754_finite false 7074237752028440 (-51).

(** [math.radians]: one multiplication by the constant [pi / 180.0]. *)
Definition radians (x : float) : float :=
  F64.mul x (F64.div pi (F64.of_Z 180)).

(** [x ** 2] on a float: NaN, infinities, zeros and [1.0] are answered by
    the interpreter; otherwise the C function is called on the absolute
    value and an infinite result is an [OverflowError]. *)
Definition pow2 (M : libm) (x : float) : result float :=
  match x with
  | S754_nan => Ok x
  | S754_infinity _ => Ok F64.inf
  | S754_zero _ => Ok F64.zero
  | S754_finite _ _ _ =>
      let ax := SFabs x in
      if SFeqb ax F64.one then Ok F64.one
      else
        let r := c_pow M ax F64.two in
        if F64.is_inf r then Raise OverflowError else Ok r
  end.

(** [_haversine]: distance in km between two points given in degrees. *)
Definition _haversine (M : libm) (lat1 lon1 lat2 lon2 : float) : result float :=
  let r := F64.of_Z 6371 in
  let phi1 := radians lat1 in
  let phi2 := radians lat2 in
  let dphi := radians (F64.sub lat2 lat1) in
  let dlam := radians (F64.sub lon2 lon1) in
  s1 ← math_1 (c_sin M) (F64.div dphi F64.two);
  p1 ← pow2 M s1;
  c1 ← math_1 (c_cos M) phi1;
  c2 ← math_1 (c_cos M) phi2;
  s2 ← math_1 (c_sin M) (F64.div dlam F64.two);
  p2 ← pow2 M s2;
  let a := F64.add p1 (F64.mul (F64.mul c1 c2) p2) in
  q1 ← math_1 F64.sqrt a;
  q2 ← math_1 F64.sqrt (F64.sub F64.one a);
  t ← math_2 (c_atan2 M) q1 q2;
  Ok (F64.mul (F64.mul r F64.two) t).

(** [round(x, 1)]: the decimal with one digit after the point nearest to
    the exact value of [x] (ties to the even digit), converted back to the
    nearest float. *)
Definition round1 (x : float) : float :=
  match x with
  | S754_finite s m e =>
      let num := 10 * Zpos m * 2 ^ Z.max e 0 in
      let den := 2 ^ Z.max (- e) 0 in
      let q := num / den in
      let r := num mod den in
      let k :=
        match 2 * r ?= den with
        | Lt => q
        | Gt => q + 1
        | Eq => if Z.even q then q else q + 1
        end in
      F64.of_ratio s k 10
  | _ => x
  end.

(** ** The risk check *)

Inductive risk_level := HIGH | MEDIUM | LOW | RISK_UNKNOWN.

(** An entry of [nearby]: the station record with its [distance_km]. *)
Record nearby_station := {
  ns_station : station_record;
  distance_km : float;
}.

(** The text of [summary]: either the fixed sentence or
    ["<status> at <name> (<distance_km> km away)"]. *)
Inductive summary :=
| NoFloodAlerts
| StatusAt (st : status) (name : string) (distance_km : float).

Record risk_assessment := {
  ra_lat : float;
  ra_lon : float;
  ra_risk_level : risk_level;
  ra_summary : summary;
  ra_nearby : list nearby_station;
  ra_advice : string;
}.

(** The first loop of [check_risk]: the stations with both coordinates
    whose distance is at most [radius_km], in input order. *)
Fixpoint within_radius (M : libm) (lat lon radius_km : float)
    (stations : list station_record) : result (list nearby_station) :=
  match stations with
  | [] => Ok []
  | s :: rest =>
      match st_lat s, st_lon s with
      | Some slat, Some slon =>
          dist ← _haversine M lat lon slat slon;
          tail ← within_radius M lat lon radius_km rest;
          Ok (if F64.leb dist radius_km
              then {| ns_station := s; distance_km := round1 dist |} :: tail
              else tail)
      | _, _ => within_radius M lat lon radius_km rest
      end
  end.

(** [list.sort(key=...)] is stable and compares keys with [<]. *)
Fixpoint insert_by_distance (x : nearby_station) (l : list nearby_station)
  : list nearby_station :=
  match l with
  | [] => [x]
  | y :: l' =>
      if F64.ltb (distance_km y) (distance_km x)
      then y :: insert_by_distance x l'
      else x :: l
  end.

Definition sort_by_distance (l : list nearby_station) : list nearby_station :=
  foldr insert_by_distance [] l.

(** The scan for the worst status: the loop stops at the first
    [MAJOR_FLOOD]. *)
Fixpoint worst_scan (worst_status : status) (worst_station : option nearby_station)
    (nearby : list nearby_station) : status * option nearby_station :=
  match nearby with
  | [] => (worst_status, worst_station)
  | s :: rest =>
      match st_status (ns_station s) with
      | MAJOR_FLOOD => (MAJOR_FLOOD, Some s)
      | MINOR_FLOOD =>
          if bool_decide (worst_status ≠ MAJOR_FLOOD)
          then worst_scan MINOR_FLOOD (Some s) rest
          else worst_scan worst_status worst_station rest
      | ALERT =>
          if bool_decide (worst_status = NORMAL)
          then worst_scan ALERT (Some s) rest
          else worst_scan worst_status worst_station rest
      | _ => worst_scan worst_status worst_station rest
      end
  end.

Definition risk_map (st : status) : risk_level :=
  match st with
  | MAJOR_FLOOD => HIGH
  | MINOR_FLOOD => HIGH
  | ALERT => MEDIUM
  | NORMAL => LOW
  | _ => RISK_UNKNOWN
  end.

Definition no_alerts_advice : string :=
  "No immediate flood risk detected from monitored rivers. Stay aware of local conditions.".

(** [check_risk] on the records [get_all_stations] returned. *)
Definition check_risk_on (M : libm) (stations : list station_record)
    (lat lon radius_km : float) : result risk_assessment :=
  nearby ← within_radius M lat lon radius_km stations;
  let nearby := sort_by_distance nearby in
  let '(worst_status, worst_station) := worst_scan NORMAL None nearby in
  let risk := risk_map worst_status in
  let '(summary, advice) :=
    match worst_station with
    | Some ws =>
        let rec := ns_station ws in
        let basin := if bool_decide (st_basin rec = "") then "the river" else st_basin rec in
        (StatusAt (st_status rec) (st_name rec) (distance_km ws),
         match risk with
         | HIGH =>
             "Active flooding detected nearby. If you are near " +:+ basin +:+
             ", move to higher ground and follow official alerts."
         | _ =>
             "Elevated water levels at " +:+ st_name rec +:+
             ". Monitor the situation."
         end)
    | None => (NoFloodAlerts, no_alerts_advice)
    end in
  Ok {|
    ra_lat := lat;
    ra_lon := lon;
    ra_risk_level := risk;
    ra_summary := summary;
    ra_nearby := take 5 nearby;
    ra_advice := advice;
  |}.

(** [check_risk], on the two responses [get_all_stations] fetches. *)
Definition check_risk (M : libm) (stations : list station_feature)
    (gauges : list gauge_attrs) (lat lon radius_km : float)
  : result risk_assessment :=
  records ← get_all_stations stations gauges;
  check_risk_on M records lat lon radius_km.

(** ** Rivers *)

Section Rivers.

(** [A] is the type of a feature of the rivers layer and [E] the type of
    the exceptions a request can raise. *)
Context {A E : Type}.

(** The request for the page at an offset: the features of the response
    or the exception raised. *)
Variable get : nat -> E + list A.

(** The loop of [_fetch_rivers_paginated]: [None] when [fuel] requests do
    not end it. *)
Fixpoint fetch_pages (fuel offset : nat) (all_features : list A)
  : option (E + list A) :=
  match fuel with
  | O => None
  | S fuel =>
      match get offset with
      | inl e => Some (inl e)
      | inr [] => Some (inr all_features)
      | inr features =>
          let all_features := all_features ++ features in
          if (length features <? 1000)%nat then Some (inr all_features)
          else fetch_pages fuel (offset + 1000) all_features
      end
  end.

Definition _fetch_rivers_paginated (fuel : nat) : option (E + list A) :=
  fetch_pages fuel 0 [].

End Rivers.

(** A feature of the rivers layer: the attribute [FID] and the paths of
    the geometry, the empty list when the feature has no geometry or no
    paths.  [P] is the type of a path, a list of coordinate pairs that the
    program copies as it is. *)
Record river_feature (P : Type) := {
  FID : pyval;
  paths : list P;
}.
Arguments FID {P} _.
Arguments paths {P} _.

(** A GeoJSON feature of type LineString. *)
Record line_string (P : Type) := {
  ls_fid : pyval;
  ls_coordinates : P;
}.
Arguments ls_fid {P} _.
Arguments ls_coordinates {P} _.

(** The conversion loop of [get_rivers_geojson]. *)
Definition rivers_to_geojson {P} (features : list (river_feature P))
  : list (line_string P) :=
  foldl (fun geojson f =>
           foldl (fun geojson path =>
                    geojson ++ [{| ls_fid := FID f; ls_coordinates := path |}])
             geojson (paths f))
    [] features.

(** [get_rivers_geojson], on the service it queries. *)
Definition get_rivers_geojson {P E} (get : nat -> E + list (river_feature P))
    (fuel : nat) : option (E + list (line_string P)) :=
  match _fetch_rivers_paginated get fuel with
  | Some (inr features) => Some (inr (rivers_to_geojson features))
  | Some (inl e) => Some (inl e)
  | None => None
  end.

(** The LineStrings of one river feature. *)
Definition lines_of {P} (f : river_feature P) : list (line_string P) :=
  (fun path => {| ls_fid := FID f; ls_coordinates := path |}) <$> paths f.

(** A service that holds the table [db] and answers a request for 1000
    rows at an offset with at most [cap] rows. *)
Definition paged {A E} (db : list A) (cap : nat) (offset : nat) : E + list A :=
  inr (take (cap `min` 1000) (drop offset db)).

(** ** The nearest station ([flood_lookup.py]) *)

(** [haversine] of [flood_lookup.py] *)
Definition haversine (M : libm) (lat1 lon1 lat2 lon2 : float) : result float :=
  let r := F64.of_Z 6371 in
  let phi1 := radians lat1 in
  let phi2 := radians lat2 in
  let dphi := radians (F64.sub lat2 lat1) in
  let dlambda := radians (F64.sub lon2 lon1) in
  s1 ← math_1 (c_sin M) (F64.div dphi F64.two);
  p1 ← pow2 M s1;
  c1 ← math_1 (c_cos M) phi1;
  c2 ← math_1 (c_cos M) phi2;
  s2 ← math_1 (c_sin M) (F64.div dlambda F64.two);
  p2 ← pow2 M s2;
  let a := F64.add p1 (F64.mul (F64.mul c1 c2) p2) in
  q1 ← math_1 F64.sqrt a;
  q2 ← math_1 F64.sqrt (F64.sub F64.one a);
  t ← math_2 (c_atan2 M) q1 q2;
  let c := F64.mul F64.two t in
  Ok (F64.mul r c).

(** What [find_nearest_station] can raise: its own [RuntimeError] or an
    exception of the distance computation. *)
Inductive lookup_exn :=
| RuntimeError (msg : string)
| MathError (e : exn).

(** The dictionary [{"feature": f, "dist_km": d}]. *)
Record nearest := {
  nr_feature : station_feature;
  dist_km : float;
}.

(** The loop of [find_nearest_station]. *)
Fixpoint nearest_loop (M : libm) (lat lon : float) (best : option nearest)
    (features : list station_feature) : result (option nearest) :=
  match features with
  | [] => Ok best
  | f :: rest =>
      match f_x f, f_y f with
      | Some x, Some y =>
          d ← haversine M lat lon y x;
          let best :=
            match best with
            | None => Some {| nr_feature := f; dist_km := d |}
            | Some b =>
                if F64.ltb d (dist_km b)
                then Some {| nr_feature := f; dist_km := d |}
                else best
            end in
          nearest_loop M lat lon best rest
      | _, _ => nearest_loop M lat lon best rest
      end
  end.

(** [find_nearest_station] *)
Definition find_nearest_station (M : libm) (features : list station_feature)
    (lat lon : float) : lookup_exn + nearest :=
  match nearest_loop M lat lon None features with
  | Raise e => inl (MathError e)
  | Ok None => inl (RuntimeError "could not compute nearest station")
  | Ok (Some best) => inr best
  end.

(** ** The flooding summary *)

Fixpoint mapM {A B} (f : A -> result B) (l : list A) : result (list B) :=
  match l with
  | [] => Ok []
  | a :: l' => b ← f a; bs ← mapM f l'; Ok (b :: bs)
  end.

#[global] Instance status_countable : Countable status.
Proof.
  refine (inj_countable'
            (fun s => match s with
                      | NORMAL => 0 | ALERT => 1 | MINOR_FLOOD => 2
                      | MAJOR_FLOOD => 3 | NO_DATA => 4 | UNKNOWN => 5
                      end%nat)
            (fun n => match n with
                      | 0 => NORMAL | 1 => ALERT | 2 => MINOR_FLOOD
                      | 3 => MAJOR_FLOOD | 4 => NO_DATA | _ => UNKNOWN
                      end%nat) _).
  by intros [].
Defined.

(** A Python number: the second component of a sort key. *)
Inductive pynum :=
| NInt (z : Z)
| NFloat (f : float).

(** [-(wl or 0)]: a level that is null, zero, false, the empty string or
    an empty array or object counts as the integer 0; text, arrays and
    objects cannot be negated. *)
Definition neg_level (wl : pyval) : result pynum :=
  match wl with
  | PNone => Ok (NInt 0)
  | PBool b => Ok (NInt (if b then -1 else 0))
  | PInt z => Ok (NInt (- z))
  | PFloat f => if SFeqb f F64.zero then Ok (NInt 0) else Ok (NFloat (SFopp f))
  | PStr s => if bool_decide (s = "") then Ok (NInt 0) else Raise TypeError
  | POther => Raise TypeError
  | PEmpty => Ok (NInt 0)
  end.

(** The key of the sort of the flooding stations. *)
Definition flooding_key (x : station_record) : result (Z * pynum) :=
  k ← neg_level (st_water_level x);
  Ok (if bool_decide (st_status x = MAJOR_FLOOD) then 0 else 1, k).

(** The loop that groups the stations by status. *)
Definition by_status (stations : list station_record)
  : gmap status (list station_record) :=
  foldl (fun by_status s =>
           <[st_status s := default [] (by_status !! st_status s) ++ [s]]>
             by_status)
    ∅ stations.

(** An entry of [flooding_stations]. *)
Record flooding_row := {
  fr_name : string;
  fr_basin : string;
  fr_status : status;
  fr_water_level : pyval;
}.

Definition flooding_row_of (s : station_record) : flooding_row :=
  {| fr_name := st_name s; fr_basin := st_basin s;
     fr_status := st_status s; fr_water_level := st_water_level s |}.

Record flooding_summary := {
  fs_total_stations : nat;
  fs_major_flood : nat;
  fs_minor_flood : nat;
  fs_alert : nat;
  fs_normal : nat;
  fs_flooding_stations : list flooding_row;
  fs_affected_basins : gset string;
}.

Section FloodingSummary.

(** [list.sort], given the items with their keys.  The order it gives
    to keys that [<] does not order (a NaN among them) is the
    interpreter's, so the sort is a parameter. *)
Variable list_sort : list ((Z * pynum) * station_record) -> list station_record.

(** [get_flooding_summary] on the records [get_all_stations] returned.
    [affected_basins] is a list built from a set, in no specified order:
    it is modelled as the set. *)
Definition flooding_summary_on (stations : list station_record)
  : result flooding_summary :=
  let by_status := by_status stations in
  let group st := default [] (by_status !! st) in
  let flooding := group MAJOR_FLOOD ++ group MINOR_FLOOD in
  keys ← mapM flooding_key flooding;
  let flooding := list_sort (zip keys flooding) in
  Ok {|
    fs_total_stations := length stations;
    fs_major_flood := length (group MAJOR_FLOOD);
    fs_minor_flood := length (group MINOR_FLOOD);
    fs_alert := length (group ALERT);
    fs_normal := length (group NORMAL);
    fs_flooding_stations := flooding_row_of <$> flooding;
    fs_affected_basins :=
      list_to_set (List.filter (fun b => negb (bool_decide (b = "")))
                     (st_basin <$> flooding));
  |}.

(** [get_flooding_summary], on the two responses it fetches. *)
Definition get_flooding_summary (stations : list station_feature)
    (gauges : list gauge_attrs) : result flooding_summary :=
  records ← get_all_stations stations gauges;
  flooding_summary_on records.

End FloodingSummary.

(** ** Reporting helpers *)

(** [station_severity] of [dashboard_legacy.py]: the rank by which the
    stations of a basin are listed, most severe first. *)
Definition station_severity (s : status) : Z :=
  match s with
  | MAJOR_FLOOD => 0
  | MINOR_FLOOD => 1
  | ALERT => 2
  | NORMAL => 3
  | NO_DATA => 4
  | UNKNOWN => 5
  end.

(** *** The basin report ([dashboard_legacy.py], [main]) *)

(** [sorted(l, key=...)] with integer keys: stable, by [<] on the keys. *)
Fixpoint insert_by {A} (key : A -> Z) (x : A) (l : list A) : list A :=
  match l with
  | [] => [x]
  | y :: l' => if key y <? key x then y :: insert_by key x l' else x :: l
  end.

Definition sorted_by {A} (key : A -> Z) (l : list A) : list A :=
  foldr (insert_by key) [] l.

(** [s["basin"].strip() or "Unknown"] *)
Definition basin_label (s : station_record) : string :=
  let b := str_strip (st_basin s) in
  if bool_decide (b = "") then "Unknown" else b.

(** [by_basin[label].append(s)] on a dictionary that keeps its keys in
    the order of their first insertion. *)
Fixpoint group_append (label : string) (s : station_record)
    (groups : list (string * list station_record))
  : list (string * list station_record) :=
  match groups with
  | [] => [(label, [s])]
  | (l, g) :: rest =>
      if bool_decide (l = label) then (l, g ++ [s]) :: rest
      else (l, g) :: group_append label s rest
  end.

Definition by_basin (stations : list station_record)
  : list (string * list station_record) :=
  foldl (fun groups s => group_append (basin_label s) s groups) [] stations.

(** [by_basin[basin_name]] *)
Fixpoint basin_group (groups : list (string * list station_record))
    (basin_name : string) : list station_record :=
  match groups with
  | [] => []
  | (l, g) :: rest =>
      if bool_decide (l = basin_name) then g else basin_group rest basin_name
  end.

(** [basin_severity], on the stations of the basin. *)
Definition basin_severity (stations_in_basin : list station_record) : Z :=
  let statuses := st_status <$> stations_in_basin in
  if bool_decide (MAJOR_FLOOD ∈ statuses) then 0
  else if bool_decide (MINOR_FLOOD ∈ statuses) then 1
  else if bool_decide (ALERT ∈ statuses) then 2
  else 3.

Definition sorted_basins (stations : list station_record) : list string :=
  let by_basin := by_basin stations in
  sorted_by (fun basin_name => basin_severity (basin_group by_basin basin_name))
    by_basin.*1.

(** Whether a value counts as true in a condition. *)
Definition truthy (v : pyval) : bool :=
  match v with
  | PNone => false
  | PBool b => b
  | PInt z => negb (z =? 0)
  | PFloat f => negb (SFeqb f F64.zero)
  | PStr s => negb (bool_decide (s = ""))
  | POther => true
  | PEmpty => false
  end.

(** [f"{v:.2f}"], for what it raises: the text it gives is not modelled.
    An integer is converted to a float first. *)
Definition format_fixed (v : pyval) : result unit :=
  match v with
  | PBool _ | PFloat _ => Ok ()
  | PInt z => if F64.is_inf (F64.of_Z z) then Raise OverflowError else Ok ()
  | PStr _ => Raise ValueError
  | PNone | POther | PEmpty => Raise TypeError
  end.

(** The line of a station under its basin: the level is formatted when
    it counts as true and replaced by a dash otherwise. *)
Definition station_line (s : station_record) : result station_record :=
  let wl := st_water_level s in
  _ ← (if truthy wl then format_fixed wl else Ok ());
  Ok s.

(** The console report of [main]: the basins in the order in which they
    are printed, each with its stations in the order of their lines.  The
    texts are not modelled, only what computing them raises: the sort key
    of the section on active flooding, which is computed for every station
    in flood before the basins are printed, and the format of the water
    level in each line. *)
Definition basin_report (stations : list station_record)
  : result (list (string * list station_record)) :=
  let by_status := by_status stations in
  let by_basin := by_basin stations in
  let sorted_basins := sorted_basins stations in
  let major := length (default [] (by_status !! MAJOR_FLOOD)) in
  let minor := length (default [] (by_status !! MINOR_FLOOD)) in
  _ ← (if (0 <? major)%nat || (0 <? minor)%nat
       then
         let flooding :=
           default [] (by_status !! MAJOR_FLOOD) ++
           default [] (by_status !! MINOR_FLOOD) in
         mapM flooding_key flooding
       else Ok []);
  mapM (fun basin =>
          let stations_in_basin := basin_group by_basin basin in
          lines ← mapM station_line
                    (sorted_by (fun s => station_severity (st_status s))
                       stations_in_basin);
          Ok (basin, lines))
    sorted_basins.

(** ** Vocabulary of the properties *)

(** A value that [float] rejects: missing, an array or object, or text
    that is not a number. *)
Definition not_a_number (v : pyval) : Prop :=
  py_float v = Raise TypeError \/ py_float v = Raise ValueError.

(** An integer beyond the range of a float. *)
Definition too_large (v : pyval) : Prop :=
  py_float v = Raise OverflowError.

(** The thresholds test of both classifiers, once the four values are
    floats. *)
Definition tier (wl alert minor major : float) : status :=
  if F64.ltb wl alert then NORMAL
  else if F64.ltb wl minor then ALERT
  else if F64.ltb wl major then MINOR_FLOOD
  else MAJOR_FLOOD.

Definition has_gauge (g : string) (a : gauge_attrs) : bool :=
  bool_decide (gauge a = Some g).

(** [a] is at least as recent as [b]. *)
Definition not_older (a b : gauge_attrs) : Prop :=
  match CreationDate a, CreationDate b with
  | Some ta, Some tb => tb <= ta
  | _, _ => False
  end.

(** The order the query asks the service for: [CreationDate DESC]. *)
Definition newest_first (features : list gauge_attrs) : Prop :=
  StronglySorted not_older features.

Definition all_space (t : string) : Prop :=
  Forall (fun c => str_isspace c = true) (list_ascii_of_string t).

(** A basin label that is missing or made of whitespace only. *)
Definition blank (basin : option string) : Prop :=
  match basin with
  | None => True
  | Some t => all_space t
  end.

(** The distance the first loop of [check_risk] computes for an entry of
    [nearby]. *)
Definition true_distance (M : libm) (lat lon : float) (n : nearby_station)
  : result float :=
  match st_lat (ns_station n), st_lon (ns_station n) with
  | Some slat, Some slon => _haversine M lat lon slat slon
  | _, _ => Raise TypeError
  end.

(** What the first loop guarantees of an entry: it comes from the input,
    its distance is at most the radius, and [distance_km] is that distance
    rounded to one decimal. *)
Definition retained (M : libm) (lat lon radius_km : float)
    (stations : list station_record) (n : nearby_station) : Prop :=
  ns_station n ∈ stations /\
  exists d, true_distance M lat lon n = Ok d /\
            F64.leb d radius_km = true /\
            distance_km n = round1 d.

(** A station that the first loop does not retain. *)
Definition out_of_reach (M : libm) (lat lon radius_km : float)
    (s : station_record) : Prop :=
  match st_lat s, st_lon s with
  | Some slat, Some slon =>
      exists d, _haversine M lat lon slat slon = Ok d /\
                F64.leb d radius_km = false
  | _, _ => True
  end.

Definition has_status (st : status) (n : nearby_station) : bool :=
  bool_decide (st_status (ns_station n) = st).

(** The last entry of [l] with status [st]. *)
Fixpoint last_with (st : status) (l : list nearby_station)
  : option nearby_station :=
  match l with
  | [] => None
  | n :: l' =>
      match last_with st l' with
      | Some m => Some m
      | None => if has_status st n then Some n else None
      end
  end.

Definition by_distance_km (n1 n2 : nearby_station) : Prop :=
  F64.leb (distance_km n1) (distance_km n2) = true.

(** ** Further vocabulary *)

(** The name under which the loop of [get_all_stations] keeps an entry:
    [None] when it skips the entry. *)
Definition kept_name (s : station_feature) : option string :=
  match f_station s with
  | Some name =>
      if bool_decide (name = "") || bool_decide (f_x s = None)
      then None else Some name
  | None => None
  end.

(** An entry that the loop of [get_all_stations] does not skip. *)
Definition kept (s : station_feature) : bool :=
  match kept_name s with Some _ => true | None => false end.

Definition status_of (n : nearby_station) : status :=
  st_status (ns_station n).

(** The entries of a list whose [distance_km] equals [d]. *)
Definition at_distance (d : float) (l : list nearby_station)
  : list nearby_station :=
  List.filter (fun n => SFeqb (distance_km n) d) l.

(** The squared sine of half an angle given in degrees, as both terms of
    [a] in [_haversine] compute it. *)
Definition half_chord_sq (M : libm) (d : float) : result float :=
  s ← math_1 (c_sin M) (F64.div (radians d) F64.two); pow2 M s.

(** A C library whose sine is an odd function. *)
Definition sin_odd (M : libm) : Prop :=
  forall x, c_sin M (SFopp x) = SFopp (c_sin M x).

(** A feature with both coordinates. *)
Definition located (f : station_feature) : Prop :=
  is_Some (f_x f) /\ is_Some (f_y f).

(** No distance from the point to the feature [f] is below the distance
    recorded in [b]. *)
Definition no_nearer (M : libm) (lat lon : float) (b : nearest)
    (f : station_feature) : Prop :=
  forall x y, f_x f = Some x -> f_y f = Some y ->
    exists d, haversine M lat lon y x = Ok d /\ F64.ltb d (dist_km b) = false.

(** The distance recorded in [b] is the distance to its feature. *)
Definition measured (M : libm) (lat lon : float) (b : nearest) : Prop :=
  exists x y, f_x (nr_feature b) = Some x /\ f_y (nr_feature b) = Some y /\
    haversine M lat lon y x = Ok (dist_km b).

(** The records with a given status, in input order. *)
Definition with_status (st : status) (stations : list station_record)
  : list station_record :=
  List.filter (fun s => bool_decide (st_status s = st)) stations.

(** A level that is text and not empty. *)
Definition textual (wl : pyval) : Prop :=
  exists t, wl = PStr t /\ t ≠ "".

(** The stations with basin label [label], in the order of the list. *)
Definition in_basin (label : string) (stations : list station_record)
  : list station_record :=
  List.filter (fun s => bool_decide (basin_label s = label)) stations.

(** A water level whose line can be printed: not text, unless empty, not
    an array or object with an element, and not an integer beyond the
    range of a float. *)
Definition printable (wl : pyval) : Prop :=
  match wl with
  | PStr t => t = ""
  | POther => False
  | PInt z => F64.is_inf (F64.of_Z z) = false
  | _ => True
  end.

(** The basins in the order of the report, each with the stations of the
    basin in the order of their ranks. *)
Definition basin_listing (stations : list station_record)
  : list (string * list station_record) :=
  (fun basin =>
     (basin,
      sorted_by (fun s => station_severity (st_status s))
        (in_basin basin stations)))
    <$> sorted_basins stations.

(** A station with both coordinates whose distance from the point is at
    most the radius. *)
Definition in_reach (M : libm) (lat lon radius_km : float)
    (s : station_record) : bool :=
  match st_lat s, st_lon s with
  | Some slat, Some slon =>
      match _haversine M lat lon slat slon with
      | Ok d => F64.leb d radius_km
      | Raise _ => false
      end
  | _, _ => false
  end.

(** A station whose distance from the point, rounded to one decimal, is
    [d]. *)
Definition rounds_to (M : libm) (lat lon d : float) (s : station_record)
  : bool :=
  match st_lat s, st_lon s with
  | Some slat, Some slon =>
      match _haversine M lat lon slat slon with
      | Ok x => SFeqb (round1 x) d
      | Raise _ => false
      end
  | _, _ => false
  end.

(** Some station of the list within the radius has the status [st]. *)
Definition status_in_reach (M : libm) (lat lon radius_km : float)
    (stations : list station_record) (st : status) : Prop :=
  exists s, s ∈ stations /\ in_reach M lat lon radius_km s = true /\
            st_status s = st.

(** The entry that a list in distance order gives to the summary: the
    first MAJOR_FLOOD entry, otherwise the last MINOR_FLOOD entry,
    otherwise the first ALERT entry. *)
Definition named (l : list nearby_station) : option nearby_station :=
  match find (has_status MAJOR_FLOOD) l with
  | Some n => Some n
  | None =>
      match last_with MINOR_FLOOD l with
      | Some n => Some n
      | None => find (has_status ALERT) l
      end
  end.

Definition summary_of (w : option nearby_station) : summary :=
  match w with
  | Some n => StatusAt (status_of n) (st_name (ns_station n)) (distance_km n)
  | None => NoFloodAlerts
  end.

(** ** Sample data

    A query point, a few stations on its parallel and the readings that
    go with them.  [glibc] tabulates the values the C library returns at
    the arguments these samples reach; floats are written in decimal and
    read with the interpreter's own conversion. *)

Definition dec (s : string) : float := default F64.nan (Strtod.parse s).

Definition table_1 (t : list (string * string)) (x : float) : float :=
  match find (fun p => SFeqb (dec p.1) x) t with
  | Some p => dec p.2
  | None => F64.nan
  end.

Definition table_2 (t : list (string * string * string)) (x y : float) : float :=
  match find (fun p => SFeqb (dec p.1.1) x && SFeqb (dec p.1.2) y) t with
  | Some p => dec p.2
  | None => F64.nan
  end.

Definition glibc : libm := {|
  c_sin := table_1
    [("0.0", "0.0");
     ("0.00039618974020271956", "0.00039618972983797936");
     ("0.0003979350694546478", "0.00039793505895232434");
     ("0.0008726646259971151", "0.0008726645152350999");
     ("0.008726646259971648", "0.008726535498373935")];
  c_cos := table_1
    [("0.12217304763960307", "0.992546151641322")];
  c_atan2 := table_2
    [("0.0", "1.0", "0.0");
     ("0.0003932365916705015", "0.9999999226824885", "0.00039323660180519334");
     ("0.0003949689113662921", "0.9999999219997765", "0.00039496892163551356");
     ("0.0008661598062705382", "0.9999996248835247", "0.0008661599145741589");
     ("0.008661489226072435", "0.9999624885986407", "0.008661597529230387")];
  c_pow := fun x y => if SFeqb y F64.two then F64.mul x x else F64.nan;
|}.

Definition feature (name : string) (basin : option string) (x y : option float)
  : station_feature :=
  {| f_station := Some name; f_basin := basin; f_x := x; f_y := y |}.

Definition on_parallel (name lon : string) : station_feature :=
  feature name (Some "Kelani Ganga") (Some (dec lon)) (Some (dec "7.0")).

Definition reading (g : string) (wl : pyval) (ms : Z) : gauge_attrs :=
  {| gauge := Some g; water_level := wl;
     alertpull := PFloat (dec "7.5"); minorpull := PInt 9; majorpull := PInt 10;
     CreationDate := Some ms |}.

(** A record as the join gives it for a station without reading. *)
Definition no_data_at (name lon : string) : station_record :=
  {| st_name := name; st_basin := "Kelani Ganga";
     st_lat := Some (dec "7.0"); st_lon := Some (dec lon);
     st_status := NO_DATA; st_water_level := PNone;
     st_thresholds := None; st_updated := None |}.

Definition query_lat : float := dec "7.0".
Definition query_lon : float := dec "80.0".
Definition default_radius : float := F64.of_Z 15.

(** The record of station X when its first row has the level "9.5". *)
Definition record_x : station_record :=
  {| st_name := "X"; st_basin := "Kelani Ganga";
     st_lat := Some (dec "7.0"); st_lon := Some (dec "80.0");
     st_status := MINOR_FLOOD; st_water_level := PStr "9.5";
     st_thresholds := Some (PFloat (dec "7.5"), PInt 9, PInt 10);
     st_updated := Some 2000 |}.

Definition sign_bit (x : float) : bool :=
  match x with
  | S754_zero s | S754_infinity s | S754_finite s _ _ => s
  | S754_nan => false
  end.

(** [glibc] with the sine extended to negative arguments by oddness, as
    the C library computes it. *)
Definition glibc_odd : libm := {|
  c_sin := fun x =>
    if sign_bit x then SFopp (c_sin glibc (SFabs x)) else c_sin glibc x;
  c_cos := c_cos glibc;
  c_atan2 := c_atan2 glibc;
  c_pow := c_pow glibc;
|}.

(** The exact comparison of an integer with a float. *)
Definition int_float_compare (z : Z) (f : float) : option comparison :=
  match f with
  | S754_nan => None
  | S754_infinity s => Some (if s then Gt else Lt)
  | S754_zero _ => Some (z ?= 0)
  | S754_finite s m e =>
      let v := if s then Zneg m else Zpos m in
      Some (if 0 <=? e then z ?= v * 2 ^ e else z * 2 ^ (- e) ?= v)
  end.

Definition num_compare (a b : pynum) : option comparison :=
  match a, b with
  | NInt x, NInt y => Some (x ?= y)
  | NFloat x, NFloat y => SFcompare x y
  | NInt x, NFloat y => int_float_compare x y
  | NFloat x, NInt y => CompOpp <$> int_float_compare y x
  end.

(** [<] on the keys, as tuples compare. *)
Definition key_lt (a b : Z * pynum) : bool :=
  if a.1 =? b.1
  then match num_compare a.2 b.2 with Some Lt => true | _ => false end
  else a.1 <? b.1.

Fixpoint insert_by_key {A} (x : (Z * pynum) * A) (l : list ((Z * pynum) * A))
  : list ((Z * pynum) * A) :=
  match l with
  | [] => [x]
  | y :: l' => if key_lt y.1 x.1 then y :: insert_by_key x l' else x :: l
  end.

(** A stable sort by key: what [list.sort] computes when [<] orders the
    keys. *)
Definition insertion_sort {A} (l : list ((Z * pynum) * A)) : list A :=
  (foldr insert_by_key [] l).*2.

(** A record of a station with a reading. *)
Definition flooding_at (name lon : string) (st : status) (wl : pyval)
  : station_record :=
  {| st_name := name; st_basin := "Kelani Ganga";
     st_lat := Some (dec "7.0"); st_lon := Some (dec lon);
     st_status := st; st_water_level := wl;
     st_thresholds := Some (PFloat (dec "7.5"), PInt 9, PInt 10);
     st_updated := Some 2000 |}.

Definition sample_records : list station_record :=
  [no_data_at "Far" "81.0";
   flooding_at "D" "80.1" MINOR_FLOOD (PFloat (dec "9.5"));
   flooding_at "A" "80.0456" MAJOR_FLOOD (PInt 11);
   flooding_at "B" "80.0454" MAJOR_FLOOD (PFloat (dec "12.25"))].

Definition sample_summary : flooding_summary :=
  {| fs_total_stations := 4; fs_major_flood := 2; fs_minor_flood := 1;
     fs_alert := 0; fs_normal := 0;
     fs_flooding_stations :=
       flooding_row_of <$>
         [flooding_at "B" "80.0454" MAJOR_FLOOD (PFloat (dec "12.25"));
          flooding_at "A" "80.0456" MAJOR_FLOOD (PInt 11);
          flooding_at "D" "80.1" MINOR_FLOOD (PFloat (dec "9.5"))];
     fs_affected_basins := {["Kelani Ganga"]} |}.

Definition station_in (name basin : string) (st : status) (wl : pyval)
  : station_record :=
  {| st_name := name; st_basin := basin;
     st_lat := Some (dec "7.0"); st_lon := Some (dec "80.0");
     st_status := st; st_water_level := wl;
     st_thresholds := None; st_updated := None |}.

Definition sample_basins : list station_record :=
  [station_in "P" "Kalu Ganga" NORMAL (PFloat (dec "2.5"));
   station_in "Q" "" ALERT (PInt 8);
   station_in "R" "Kelani Ganga" UNKNOWN (PStr "");
   station_in "S" "Kalu Ganga" MAJOR_FLOOD (PFloat (dec "10.81"));
   station_in "T" "Kelani Ganga" NO_DATA PNone;
   station_in "U" "Kalu Ganga" NORMAL (PInt 3)].

Definition nearby_at (s : station_record) (d : string) : nearby_station :=
  {| ns_station := s; distance_km := dec d |}.

Definition flooding_advice : string :=
  "Active flooding detected nearby. If you are near Kelani Ganga, move to higher ground and follow official alerts.".

(** What the risk check returns on [sample_records]: D, 11.0 km away,
    comes first in the input and last in the result; A and B are both
    5.0 km away. *)
Definition sample_assessment : risk_assessment :=
  {| ra_lat := query_lat; ra_lon := query_lon; ra_risk_level := HIGH;
     ra_summary := StatusAt MAJOR_FLOOD "A" (dec "5.0");
     ra_nearby :=
       [nearby_at (flooding_at "A" "80.0456" MAJOR_FLOOD (PInt 11)) "5.0";
        nearby_at (flooding_at "B" "80.0454" MAJOR_FLOOD (PFloat (dec "12.25")))
          "5.0";
        nearby_at (flooding_at "D" "80.1" MINOR_FLOOD (PFloat (dec "9.5")))
          "11.0"];
     ra_advice := flooding_advice |}.

(** Seven stations, six of them within the default radius. *)
Definition seven_stations : list station_record :=
  [no_data_at "D" "80.1"; no_data_at "Far" "81.0";
   flooding_at "A" "80.0456" ALERT (PInt 8); no_data_at "B" "80.0454";
   record_x; no_data_at "E" "80.1"; flooding_at "Y" "80.0" ALERT (PInt 8)].

Definition seven_assessment : risk_assessment :=
  {| ra_lat := query_lat; ra_lon := query_lon; ra_risk_level := HIGH;
     ra_summary := StatusAt MINOR_FLOOD "X" (dec "0.0");
     ra_nearby :=
       [nearby_at record_x "0.0";
        nearby_at (flooding_at "Y" "80.0" ALERT (PInt 8)) "0.0";
        nearby_at (flooding_at "A" "80.0456" ALERT (PInt 8)) "5.0";
        nearby_at (no_data_at "B" "80.0454") "5.0";
        nearby_at (no_data_at "D" "80.1") "11.0"];
     ra_advice := flooding_advice |}.

(** The report of [main] on [sample_basins]. *)
Definition sample_report : list (string * list station_record) :=
  [("Kalu Ganga",
    [station_in "S" "Kalu Ganga" MAJOR_FLOOD (PFloat (dec "10.81"));
     station_in "P" "Kalu Ganga" NORMAL (PFloat (dec "2.5"));
     station_in "U" "Kalu Ganga" NORMAL (PInt 3)]);
   ("Unknown", [station_in "Q" "" ALERT (PInt 8)]);
   ("Kelani Ganga",
    [station_in "T" "Kelani Ganga" NO_DATA PNone;
     station_in "R" "Kelani Ganga" UNKNOWN (PStr "")])].

(** * Properties *)

(** ** The order on floats *)

Section FloatOrder.

Local Ltac compare_cases :=
  change (Pos.compare_cont Eq) with Pos.compare in *;
  repeat match goal with
  | H : context [Z.compare ?a ?b] |- _ => destruct (Z.compare_spec a b)
  | |- context [Z.compare ?a ?b] => destruct (Z.compare_spec a b)
  | H : context [Pos.compare ?a ?b] |- _ => destruct (Pos.compare_spec a b)
  | |- context [Pos.compare ?a ?b] => destruct (Pos.compare_spec a b)
  end;
  simpl in *; try done; try lia.

Lemma leb_not_nan x y :
  F64.leb x y = true -> F64.is_nan x = false /\ F64.is_nan y = false.
Proof. by destruct x, y. Qed.

Lemma ltb_false_leb x y :
  F64.is_nan x = false -> F64.is_nan y = false ->
  F64.ltb x y = false -> F64.leb y x = true.
Proof.
  unfold F64.ltb, F64.leb, SFltb, SFleb.
  destruct x as [[]|[]| |[] mx ex], y as [[]|[]| |[] my ey];
    simpl; try done; intros _ _; compare_cases.
Qed.

Lemma leb_ltb_false x y : F64.leb y x = true -> F64.ltb x y = false.
Proof.
  unfold F64.ltb, F64.leb, SFltb, SFleb.
  destruct x as [[]|[]| |[] mx ex], y as [[]|[]| |[] my ey];
    simpl; try done; compare_cases.
Qed.

Lemma leb_trans x y z :
  F64.leb x y = true -> F64.leb y z = true -> F64.leb x z = true.
Proof.
  unfold F64.leb, SFleb.
  destruct x as [[]|[]| |[] mx ex], y as [[]|[]| |[] my ey],
    z as [[]|[]| |[] mz ez]; simpl; try done; compare_cases.
Qed.

End FloatOrder.

(** ** The classifier *)

Lemma py_float_cases v :
  (exists f, py_float v = Ok f) \/ not_a_number v \/ too_large v.
Proof.
  unfold not_a_number, too_large.
  destruct (py_float v) as [f|[]]; eauto.
Qed.

Lemma not_a_number_inv v :
  not_a_number v <->
  v = PNone \/ v = POther \/ v = PEmpty \/
  exists s, v = PStr s /\ Strtod.parse s = None.
Proof.
  unfold not_a_number. split.
  - destruct v as [| b | z | f | s | |]; simpl; eauto.
    + intros [?|?]; done.
    + destruct (F64.is_inf _); intros [?|?]; done.
    + intros [?|?]; done.
    + destruct (Strtod.parse s) eqn:E; [intros [?|?]; done|eauto 7].
  - intros [->|[->|[->|(s & -> & E)]]]; simpl; eauto. rewrite E. eauto.
Qed.

Lemma too_large_inv v :
  too_large v <-> exists z, v = PInt z /\ F64.is_inf (F64.of_Z z) = true.
Proof.
  unfold too_large. split.
  - destruct v as [| b | z | f | s | |]; simpl; try done.
    + destruct (F64.is_inf _) eqn:E; [eauto|done].
    + by destruct (Strtod.parse s).
  - intros (z & -> & E). simpl. by rewrite E.
Qed.

Lemma _classify_floats wl alert minor major w a mi ma :
  py_float wl = Ok w -> py_float alert = Ok a ->
  py_float minor = Ok mi -> py_float major = Ok ma ->
  _classify wl alert minor major = Ok (tier w a mi ma).
Proof.
  intros Hw Ha Hmi Hma. unfold _classify, tier, mbind, result_bind.
  rewrite Hw, Ha, Hmi, Hma.
  by repeat case_match.
Qed.

(** C9: with finite numbers and thresholds in increasing order, the
    classifier returns NORMAL exactly below the alert threshold, ALERT
    from the alert threshold up to the minor one, MINOR_FLOOD from the
    minor threshold up to the major one, and MAJOR_FLOOD from the major
    threshold on; with thresholds 7.5, 9 and 10 the levels 7.0, 8, 9.5 and
    10.81 give these four tiers in turn. *)
Theorem classify_tiers :
  (forall wl alert minor major w a mi ma,
      py_float wl = Ok w -> py_float alert = Ok a ->
      py_float minor = Ok mi -> py_float major = Ok ma ->
      F64.is_finite w = true -> F64.is_finite a = true ->
      F64.is_finite mi = true -> F64.is_finite ma = true ->
      F64.leb a mi = true -> F64.leb mi ma = true ->
      exists s, _classify wl alert minor major = Ok s /\
        (s = NORMAL <-> F64.ltb w a = true) /\
        (s = ALERT <-> F64.leb a w = true /\ F64.ltb w mi = true) /\
        (s = MINOR_FLOOD <-> F64.leb mi w = true /\ F64.ltb w ma = true) /\
        (s = MAJOR_FLOOD <-> F64.leb ma w = true)) /\
  _classify (PFloat (dec "7.0")) (PFloat (dec "7.5")) (PInt 9) (PInt 10)
    = Ok NORMAL /\
  _classify (PInt 8) (PFloat (dec "7.5")) (PInt 9) (PInt 10) = Ok ALERT /\
  _classify (PFloat (dec "9.5")) (PFloat (dec "7.5")) (PInt 9) (PInt 10)
    = Ok MINOR_FLOOD /\
  _classify (PFloat (dec "10.81")) (PFloat (dec "7.5")) (PInt 9) (PInt 10)
    = Ok MAJOR_FLOOD.
Proof.
  split; [|by vm_compute].
  intros wl alert minor major w a mi ma Hw Ha Hmi Hma Fw Fa Fmi Fma Hami Himaj.
  exists (tier w a mi ma). split; [by apply _classify_floats|].
  assert (Nw : F64.is_nan w = false) by by destruct w.
  assert (Na : F64.is_nan a = false) by by destruct a.
  assert (Nmi : F64.is_nan mi = false) by by destruct mi.
  assert (Nma : F64.is_nan ma = false) by by destruct ma.
  pose proof (leb_trans _ _ _ Hami Himaj) as Hamaj.
  assert (clash : forall x y, F64.leb y x = true -> F64.ltb x y = true -> False).
  { intros x y L H. apply leb_ltb_false in L. congruence. }
  unfold tier.
  destruct (F64.ltb w a) eqn:E1; [|apply ltb_false_leb in E1 as L1; [|done..]].
  { repeat split; try done.
    - intros [L _]. destruct (clash _ _ L E1).
    - intros [L _]. destruct (clash _ _ (leb_trans _ _ _ Hami L) E1).
    - intros L. destruct (clash _ _ (leb_trans _ _ _ Hamaj L) E1). }
  destruct (F64.ltb w mi) eqn:E2; [|apply ltb_false_leb in E2 as L2; [|done..]].
  { repeat split; try done.
    - intros [L _]. destruct (clash _ _ L E2).
    - intros L. destruct (clash _ _ (leb_trans _ _ _ Himaj L) E2). }
  destruct (F64.ltb w ma) eqn:E3; [|apply ltb_false_leb in E3 as L3; [|done..]].
  { repeat split; try done.
    - by intros [_ ?].
    - intros L. destruct (clash _ _ L E3). }
  repeat split; try done; by intros [_ ?].
Qed.

Lemma classify_tiers_witness :
  exists s,
    _classify (PStr "8.2") (PFloat (dec "7.5")) (PInt 9) (PInt 10) = Ok s /\
    (s = NORMAL <-> F64.ltb (dec "8.2") (dec "7.5") = true) /\
    (s = ALERT <->
       F64.leb (dec "7.5") (dec "8.2") = true /\
       F64.ltb (dec "8.2") (F64.of_Z 9) = true) /\
    (s = MINOR_FLOOD <->
       F64.leb (F64.of_Z 9) (dec "8.2") = true /\
       F64.ltb (dec "8.2") (F64.of_Z 10) = true) /\
    (s = MAJOR_FLOOD <-> F64.leb (F64.of_Z 10) (dec "8.2") = true).
Proof.
  apply (proj1 classify_tiers
           (PStr "8.2") (PFloat (dec "7.5")) (PInt 9) (PInt 10)
           (dec "8.2") (dec "7.5") (F64.of_Z 9) (F64.of_Z 10));
    vm_compute; reflexivity.
Defined.

Lemma _classify_rejected wl alert minor major :
  not_a_number wl \/ not_a_number alert \/
  not_a_number minor \/ not_a_number major ->
  ~ too_large wl -> ~ too_large alert ->
  ~ too_large minor -> ~ too_large major ->
  _classify wl alert minor major = Ok UNKNOWN.
Proof.
  unfold not_a_number, too_large, _classify, mbind, result_bind.
  intros H Ow Oa Omi Oma.
  destruct (py_float wl) as [w|[]]; try done;
    destruct (py_float alert) as [a|[]]; try done;
    destruct (py_float minor) as [mi|[]]; try done;
    destruct (py_float major) as [ma|[]]; try done.
  destruct H as [[?|?]|[[?|?]|[[?|?]|[?|?]]]]; done.
Qed.

Lemma is_none_not_a_number v : is_none v = true -> not_a_number v.
Proof. destruct v; try done. by left. Qed.

(** C4: the classifier returns UNKNOWN when one of the four values is
    missing or is rejected by the float conversion and none of them is an
    integer beyond the range of a float.  Text such as "nan" or "inf" and
    non-finite floats are accepted by the conversion and go through the
    threshold comparisons. *)
Theorem classify_unknown wl alert minor major :
  not_a_number wl \/ not_a_number alert \/
  not_a_number minor \/ not_a_number major ->
  ~ too_large wl -> ~ too_large alert ->
  ~ too_large minor -> ~ too_large major ->
  _classify wl alert minor major = Ok UNKNOWN.
Proof. apply _classify_rejected. Qed.

Lemma classify_unknown_witness :
  _classify (PFloat (dec "8.2")) PNone (PStr "n/a") (PInt 10) = Ok UNKNOWN /\
  _classify (PStr (String "028" "8.2")) (PFloat (dec "7.5")) (PInt 9) (PInt 10)
    = Ok UNKNOWN.
Proof.
  split.
  - apply classify_unknown; unfold not_a_number, too_large;
      vm_compute; [|done..].
    right. left. left. reflexivity.
  - apply classify_unknown; unfold not_a_number, too_large;
      vm_compute; [|done..].
    left. right. reflexivity.
Defined.

(** C4, as stated, fails: "nan" and "inf" are not parseable as finite
    numbers, yet the classifier returns MAJOR_FLOOD and NORMAL for them
    instead of UNKNOWN. *)
Lemma classify_nan_not_unknown :
  Strtod.parse "nan" = Some S754_nan /\
  _classify (PStr "nan") (PFloat (dec "7.5")) (PInt 9) (PInt 10)
    = Ok MAJOR_FLOOD /\
  _classify (PFloat S754_nan) (PFloat (dec "7.5")) (PInt 9) (PInt 10)
    = Ok MAJOR_FLOOD /\
  _classify (PFloat (dec "8.2")) (PStr "inf") (PInt 9) (PInt 10)
    = Ok NORMAL /\
  _classify (PStr "nan") (PFloat (dec "7.5")) (PInt 9) (PInt 10)
    <> Ok UNKNOWN.
Proof. by vm_compute. Qed.

(** C10: on every tuple of four values none of which is an integer beyond
    the range of a float, the two classifiers return, and return the same
    status. *)
Theorem classifiers_agree (attrs : gauge_attrs) :
  ~ too_large (water_level attrs) -> ~ too_large (alertpull attrs) ->
  ~ too_large (minorpull attrs) -> ~ too_large (majorpull attrs) ->
  exists s,
    _classify (water_level attrs) (alertpull attrs)
      (minorpull attrs) (majorpull attrs) = Ok s /\
    classify_status attrs = Ok s.
Proof.
  destruct attrs as [g wl alert minor major t]. simpl.
  intros Ow Oa Omi Oma. unfold classify_status. simpl.
  destruct (is_none wl || is_none alert || is_none minor || is_none major)
    eqn:E.
  - exists UNKNOWN. split; [|done].
    apply _classify_rejected; try done.
    repeat (apply orb_prop in E as [E|E]); auto using is_none_not_a_number.
  - unfold too_large, _classify, mbind, result_bind in *.
    destruct (py_float wl) as [w|[]]; try done;
      destruct (py_float alert) as [a|[]]; try done;
      destruct (py_float minor) as [mi|[]]; try done;
      destruct (py_float major) as [ma|[]]; try done; eauto.
    unfold F64.ltb. repeat case_match; eauto.
Qed.

Lemma classifiers_agree_witness :
  exists s,
    _classify (PStr "8.2") PNone (PInt 9) (PInt 10) = Ok s /\
    classify_status {| gauge := Some "Hanwella"; water_level := PStr "8.2";
                       alertpull := PNone; minorpull := PInt 9;
                       majorpull := PInt 10; CreationDate := None |} = Ok s.
Proof.
  apply (classifiers_agree
           {| gauge := Some "Hanwella"; water_level := PStr "8.2";
              alertpull := PNone; minorpull := PInt 9;
              majorpull := PInt 10; CreationDate := None |});
    unfold too_large; vm_compute; done.
Defined.

(** C10, as stated, fails: when an integer too large for a float comes
    before a missing value, [classify_status] returns UNKNOWN and
    [_classify] raises OverflowError. *)
Lemma classifiers_differ :
  _classify (PInt (10 ^ 400)) PNone (PInt 9) (PInt 10) = Raise OverflowError /\
  classify_status {| gauge := Some "Hanwella"; water_level := PInt (10 ^ 400);
                     alertpull := PNone; minorpull := PInt 9;
                     majorpull := PInt 10; CreationDate := None |}
    = Ok UNKNOWN.
Proof. by vm_compute. Qed.

(** ** The latest reading per gauge *)

Section LatestReadings.

Implicit Types (a b : gauge_attrs) (g : string)
  (features : list gauge_attrs) (latest : gmap string gauge_attrs).

Lemma latest_step_lookup latest a g :
  g ≠ "" ->
  latest_step latest a !! g =
    match latest !! g with
    | Some r => Some r
    | None => if has_gauge g a then Some a else None
    end.
Proof.
  intros Hg. unfold latest_step, has_gauge.
  destruct (gauge a) as [g'|] eqn:Ea; simpl.
  - repeat case_bool_decide; simplify_eq; simpl;
      rewrite ?lookup_insert_eq, ?lookup_insert_ne by congruence;
      destruct (latest !! g) eqn:El; congruence.
  - repeat case_bool_decide; simplify_eq; by destruct (latest !! g).
Qed.

(** The loop keeps, for each gauge name, the first row that carries it. *)
Lemma latest_fold_lookup features latest g :
  g ≠ "" ->
  foldl latest_step latest features !! g =
    match latest !! g with
    | Some r => Some r
    | None => find (has_gauge g) features
    end.
Proof.
  intros Hg. revert latest.
  induction features as [|a features IH]; intros latest; simpl.
  - by destruct (latest !! g).
  - rewrite IH, latest_step_lookup by done.
    destruct (latest !! g); [done|]. by destruct (has_gauge g a).
Qed.

Lemma first_reading features g :
  g ≠ "" ->
  _fetch_latest_readings features !! g = find (has_gauge g) features.
Proof.
  intros Hg. unfold _fetch_latest_readings.
  by rewrite latest_fold_lookup, lookup_empty.
Qed.

Lemma find_first_sorted (R : relation gauge_attrs) p features b :
  StronglySorted R features -> b ∈ features -> p b = true ->
  exists a, find p features = Some a /\ p a = true /\ a ∈ features /\
            (a = b \/ R a b).
Proof.
  induction 1 as [|x l Hl IH Hx]; intros Hb Hp.
  - by apply elem_of_nil in Hb.
  - simpl. destruct (p x) eqn:Ex.
    + exists x. split_and!; [done|done|by left|].
      apply elem_of_cons in Hb as [->|Hb]; [by left|right].
      rewrite Forall_forall in Hx. by apply Hx.
    + apply elem_of_cons in Hb as [->|Hb]; [congruence|].
      destruct (IH Hb Hp) as (a & ? & ? & ? & ?).
      exists a. split_and!; [done|done|by right|done].
Qed.

End LatestReadings.

(** C6: when the rows come newest first, as the query orders them, the
    reading kept for a gauge name is at least as recent as every row with
    that name; in any order, it is the first such row. *)
Theorem latest_reading_newest (features : list gauge_attrs) (g : string)
    (b : gauge_attrs) :
  newest_first features ->
  b ∈ features -> gauge b = Some g -> g ≠ "" ->
  exists a,
    _fetch_latest_readings features !! g = Some a /\
    find (has_gauge g) features = Some a /\
    gauge a = Some g /\ a ∈ features /\ (a = b \/ not_older a b).
Proof.
  intros Hs Hb Hg Hne. rewrite first_reading by done.
  destruct (find_first_sorted not_older (has_gauge g) features b)
    as (a & Hf & Ha & Hin & Hab); [done|done|by apply bool_decide_eq_true_2|].
  exists a. split_and!; try done.
  by apply bool_decide_eq_true_1 in Ha.
Qed.

Lemma latest_reading_newest_witness :
  exists a,
    _fetch_latest_readings
      [reading "Hanwella" (PFloat (dec "10.81")) 2000;
       reading "Glencourse" (PInt 12) 1500;
       reading "Hanwella" (PFloat (dec "9.5")) 1000] !! "Hanwella" = Some a /\
    find (has_gauge "Hanwella")
      [reading "Hanwella" (PFloat (dec "10.81")) 2000;
       reading "Glencourse" (PInt 12) 1500;
       reading "Hanwella" (PFloat (dec "9.5")) 1000] = Some a /\
    gauge a = Some "Hanwella" /\
    a ∈ [reading "Hanwella" (PFloat (dec "10.81")) 2000;
         reading "Glencourse" (PInt 12) 1500;
         reading "Hanwella" (PFloat (dec "9.5")) 1000] /\
    (a = reading "Hanwella" (PFloat (dec "9.5")) 1000 \/
     not_older a (reading "Hanwella" (PFloat (dec "9.5")) 1000)).
Proof.
  apply (latest_reading_newest _ "Hanwella"
           (reading "Hanwella" (PFloat (dec "9.5")) 1000)).
  - unfold newest_first.
    repeat (constructor; [|repeat constructor; unfold not_older; simpl; lia]).
    constructor.
  - set_solver.
  - reflexivity.
  - done.
Defined.

(** C6, as stated, fails: when the older of two rows of one gauge comes
    first, the older row is the one kept, and the joined record carries
    its water level. *)
Lemma older_reading_kept :
  _fetch_latest_readings
    [reading "X" (PFloat (dec "7.0")) 1000;
     reading "X" (PFloat (dec "10.81")) 2000] !! "X"
    = Some (reading "X" (PFloat (dec "7.0")) 1000) /\
  exists r,
    get_all_stations [on_parallel "X" "80.0"]
      [reading "X" (PFloat (dec "7.0")) 1000;
       reading "X" (PFloat (dec "10.81")) 2000] = Ok [r] /\
    st_water_level r = PFloat (dec "7.0") /\
    st_status r = NORMAL /\
    st_updated r = Some 1000.
Proof.
  split; [by vm_compute|].
  eexists. split; [vm_compute; reflexivity|]. by vm_compute.
Qed.

(** ** The station join *)

Section Join.

Implicit Types (s : station_feature) (r : station_record)
  (readings : gmap string gauge_attrs).

Lemma station_row_Some readings s r :
  station_row readings s = Ok (Some r) ->
  f_station s = Some (st_name r) /\ st_name r ≠ "" /\
  st_lon r = f_x s /\ f_x s ≠ None /\ st_lat r = f_y s /\
  st_basin r = str_strip (default "" (f_basin s)).
Proof.
  unfold station_row, mbind, result_bind.
  repeat case_bool_decide; simpl; try done.
  destruct (match readings !! _ with Some _ => _ | None => _ end); [|done].
  intros [= <-]. simpl. destruct (f_station s); naive_solver.
Qed.

(** Every record comes from an entry of the input that the loop did
    not skip. *)
Lemma join_stations_elem readings stations records r :
  join_stations readings stations = Ok records -> r ∈ records ->
  exists s, s ∈ stations /\ station_row readings s = Ok (Some r).
Proof.
  revert records.
  induction stations as [|s stations IH]; simpl; intros records.
  - intros [= <-] Hr. by apply elem_of_nil in Hr.
  - unfold mbind, result_bind.
    destruct (station_row readings s) as [row|] eqn:Es; [|done].
    destruct (join_stations readings stations) as [rest|] eqn:Er; [|done].
    intros [= <-] Hr.
    assert (r ∈ rest -> exists s', s' ∈ s :: stations /\
              station_row readings s' = Ok (Some r)) as Hrest.
    { intros Hin. destruct (IH _ eq_refl Hin) as (s' & ? & ?).
      exists s'. split; [by right|done]. }
    destruct row as [r'|]; [|by auto].
    apply elem_of_cons in Hr as [->|Hr]; [|by auto].
    exists s. split; [by left|done].
Qed.

(** The part of the exclusion rule that the loop implements: no record
    has an empty name or a missing longitude. *)
Lemma get_all_stations_name_lon stations gauges records r :
  get_all_stations stations gauges = Ok records -> r ∈ records ->
  st_name r ≠ "" /\ st_lon r ≠ None.
Proof.
  intros Hj Hr.
  destruct (join_stations_elem _ _ _ _ Hj Hr) as (s & _ & Hs).
  apply station_row_Some in Hs as (_ & ? & -> & ? & _). done.
Qed.

Lemma lstrip_all_space l :
  Forall (fun c => str_isspace c = true) l -> str_lstrip l = [].
Proof. induction 1 as [|c l Hc _ IH]; simpl; [done|by rewrite Hc]. Qed.

Lemma str_strip_blank basin : blank basin -> str_strip (default "" basin) = "".
Proof.
  destruct basin as [t|]; simpl; [|done].
  unfold all_space, str_strip, strip_chars. intros H.
  by rewrite (lstrip_all_space _ H).
Qed.

End Join.

(** C5: an entry whose geometry has a longitude but no latitude passes
    the test of the loop, which looks at [x] only, and is returned with a
    null latitude. *)
Theorem station_without_latitude_kept :
  exists r,
    get_all_stations
      [feature "Hanwella" (Some "Kelani Ganga") (Some (dec "80.083")) None]
      [reading "Hanwella" (PFloat (dec "10.81")) 1000] = Ok [r] /\
    st_name r = "Hanwella" /\ st_lat r = None /\
    st_lon r = Some (dec "80.083") /\ st_status r = MAJOR_FLOOD.
Proof.
  eexists. split; [vm_compute; reflexivity|]. by vm_compute.
Qed.

Lemma station_row_None (readings : gmap string gauge_attrs) s :
  station_row readings s = Ok None -> kept_name s = None.
Proof.
  unfold station_row, kept_name, mbind, result_bind.
  destruct (f_station s) as [name|]; simpl; [|done].
  destruct (bool_decide (name = "") || bool_decide (f_x s = None)); [done|].
  by destruct (match readings !! name with Some _ => _ | None => _ end).
Qed.

(** C7: a station entry whose basin label is missing or blank gives a
    record whose basin is the empty string.  The records are those of
    the entries that the loop keeps, one for each and in the same order,
    and the record of an entry with such a label has the basin "",
    whatever the labels of the other entries are. *)
Theorem blank_basin_is_empty (stations : list station_feature)
    (gauges : list gauge_attrs) (records : list station_record) :
  get_all_stations stations gauges = Ok records ->
  Forall2 (fun s r =>
             kept_name s = Some (st_name r) /\
             st_lon r = f_x s /\ st_lat r = f_y s /\
             (blank (f_basin s) -> st_basin r = ""))
    (List.filter kept stations) records.
Proof.
  unfold get_all_stations. generalize (_fetch_latest_readings gauges).
  intros readings. revert records.
  induction stations as [|s stations IH]; simpl; intros records.
  - intros [= <-]. constructor.
  - unfold mbind at 1 2, result_bind.
    destruct (station_row readings s) as [row|] eqn:Es; [|done].
    destruct (join_stations readings stations) as [rest|]; [|done].
    intros [= <-]. specialize (IH _ eq_refl). destruct row as [r|].
    + pose proof (station_row_Some _ _ _ Es)
        as (Hn & Hne & Hx & Hx' & Hy & Hb).
      assert (kept_name s = Some (st_name r)) as Hk.
      { unfold kept_name. rewrite Hn.
        rewrite bool_decide_eq_false_2 by done.
        by rewrite bool_decide_eq_false_2 by done. }
      unfold kept at 1. rewrite Hk. constructor; [|done].
      split_and!; [done..|].
      intros Hblank. rewrite Hb. by apply str_strip_blank.
    + unfold kept at 1. by rewrite (station_row_None _ _ Es).
Qed.

Lemma blank_basin_is_empty_witness :
  Forall2 (fun s r =>
             kept_name s = Some (st_name r) /\
             st_lon r = f_x s /\ st_lat r = f_y s /\
             (blank (f_basin s) -> st_basin r = ""))
    (List.filter kept
       [feature "Hanwella" None (Some (dec "80.083")) (Some (dec "6.909"));
        feature "Kitulgala" (Some " Kelani Ganga") (Some (dec "80.41"))
          (Some (dec "6.99"));
        feature "" (Some " ") (Some (dec "80.0")) (Some (dec "7.0"));
        feature "Glencourse" (Some "  ") (Some (dec "80.18"))
          (Some (dec "6.97"))])
    [{| st_name := "Hanwella"; st_basin := "";
        st_lat := Some (dec "6.909"); st_lon := Some (dec "80.083");
        st_status := NO_DATA; st_water_level := PNone;
        st_thresholds := None; st_updated := None |};
     {| st_name := "Kitulgala"; st_basin := "Kelani Ganga";
        st_lat := Some (dec "6.99"); st_lon := Some (dec "80.41");
        st_status := NO_DATA; st_water_level := PNone;
        st_thresholds := None; st_updated := None |};
     {| st_name := "Glencourse"; st_basin := "";
        st_lat := Some (dec "6.97"); st_lon := Some (dec "80.18");
        st_status := NO_DATA; st_water_level := PNone;
        st_thresholds := None; st_updated := None |}].
Proof.
  apply (blank_basin_is_empty _ []). vm_compute. reflexivity.
Defined.

(** C7, as stated, fails: the basin of such a record is the empty string,
    not "Unknown". *)
Lemma blank_basin_not_unknown :
  exists r,
    get_all_stations
      [feature "Hanwella" None (Some (dec "80.083")) (Some (dec "6.909"))] []
      = Ok [r] /\
    st_basin r = "" /\ st_basin r ≠ "Unknown".
Proof.
  eexists. split; [vm_compute; reflexivity|]. by vm_compute.
Qed.

(** ** Rounding never yields NaN *)

Section RoundNotNan.

Lemma shr_1_nonneg mrs : 0 <= shr_m mrs -> 0 <= shr_m (shr_1 mrs).
Proof. destruct mrs as [[|[p|p|]|p] r t]; simpl; lia. Qed.

Lemma iter_pos_preserves {A} (P : A -> Prop) (f : A -> A) :
  (forall x, P x -> P (f x)) ->
  forall p x, P x -> P (SpecFloat.iter_pos f p x).
Proof.
  intros Hf. induction p as [p IH|p IH|]; simpl; intros x Hx; auto.
Qed.

Lemma shr_nonneg mrs e n :
  0 <= shr_m mrs -> 0 <= shr_m (shr mrs e n).1.
Proof.
  intros H. destruct n as [|p|p]; simpl; try done.
  by apply (iter_pos_preserves (fun r => 0 <= shr_m r)), H; apply shr_1_nonneg.
Qed.

Lemma shr_record_of_loc_m m l : shr_m (shr_record_of_loc m l) = m.
Proof. by destruct l as [|[]]. Qed.

Lemma shr_fexp_nonneg m e l :
  0 <= m -> 0 <= shr_m (shr_fexp F64.prec F64.emax m e l).1.
Proof.
  intros H. unfold shr_fexp. apply shr_nonneg.
  by rewrite shr_record_of_loc_m.
Qed.

Lemma round_nearest_even_nonneg m l : 0 <= m -> 0 <= round_nearest_even m l.
Proof.
  intros H. destruct l as [|[]]; simpl; try done; [|lia].
  destruct (Z.even m); lia.
Qed.

Lemma binary_round_aux_not_nan s m e l :
  0 <= m ->
  F64.is_nan (binary_round_aux F64.prec F64.emax s m e l) = false.
Proof.
  intros H. unfold binary_round_aux.
  pose proof (shr_fexp_nonneg m e l H) as H1.
  destruct (shr_fexp F64.prec F64.emax m e l) as [mrs' e']. simpl in H1.
  pose proof (shr_fexp_nonneg _ e' loc_Exact
                (round_nearest_even_nonneg _ (loc_of_shr_record mrs') H1)) as H2.
  destruct (shr_fexp F64.prec F64.emax _ e' loc_Exact) as [mrs'' e''].
  simpl in H2. destruct (shr_m mrs'') as [|p|p]; [done| |lia].
  by destruct (_ <=? _).
Qed.

Lemma of_ratio_not_nan s k d :
  0 <= k -> 0 < d -> F64.is_nan (F64.of_ratio s k d) = false.
Proof.
  intros Hk Hd. unfold F64.of_ratio. destruct k as [|p|p]; [done| |lia].
  unfold SFdiv_core_binary.
  set (m' := match _ with Z0 => _ | Zpos _ => _ | Zneg _ => _ end).
  assert (0 <= m') as Hm'.
  { subst m'. destruct (_ - _ - _); try lia. by apply Z.shiftl_nonneg. }
  pose proof (Z_div_mod m' d ltac:(lia)) as Hq.
  destruct (Z.div_eucl m' d) as [q r].
  apply binary_round_aux_not_nan. nia.
Qed.

Lemma round1_not_nan x : F64.is_nan x = false -> F64.is_nan (round1 x) = false.
Proof.
  destruct x as [| | |s m e]; try done. intros _. simpl.
  apply of_ratio_not_nan; [|done].
  set (num := 10 * Z.pos m * 2 ^ Z.max e 0).
  set (den := 2 ^ Z.max (- e) 0).
  assert (0 <= num) by (subst num; apply Z.mul_nonneg_nonneg; [lia|];
                        apply Z.pow_nonneg; lia).
  assert (0 < den) by (subst den; apply Z.pow_pos_nonneg; lia).
  assert (0 <= num / den) by (apply Z.div_pos; lia).
  destruct (2 * (num mod den) ?= den); [destruct (Z.even _)| |]; lia.
Qed.

End RoundNotNan.

(** ** The risk check *)

Section RiskCheck.

Variable M : libm.
Variables lat lon radius_km : float.

Implicit Types (s : station_record) (n : nearby_station)
  (stations : list station_record) (l : list nearby_station).

Lemma within_radius_retained stations l :
  within_radius M lat lon radius_km stations = Ok l ->
  Forall (retained M lat lon radius_km stations) l.
Proof.
  revert l. induction stations as [|s stations IH]; simpl; intros l.
  - intros [= <-]. constructor.
  - assert (forall l', Forall (retained M lat lon radius_km stations) l' ->
                       Forall (retained M lat lon radius_km (s :: stations)) l') as Hmono.
    { intros l' Hl'. eapply Forall_impl; [exact Hl'|].
      intros n (? & ?). split; [by right|done]. }
    destruct (st_lat s) as [slat|] eqn:Elat; [|by auto].
    destruct (st_lon s) as [slon|] eqn:Elon; [|by auto].
    unfold mbind, result_bind.
    destruct (_haversine M lat lon slat slon) as [d|] eqn:Ed; [|done].
    destruct (within_radius M lat lon radius_km stations) as [tail|]; [|done].
    intros [= <-]. destruct (F64.leb d radius_km) eqn:El; [|by auto].
    constructor; [|by auto].
    split; [by left|]. exists d. unfold true_distance. simpl.
    by rewrite Elat, Elon.
Qed.

Lemma retained_not_nan stations n :
  retained M lat lon radius_km stations n -> F64.is_nan (distance_km n) = false.
Proof.
  intros (_ & d & _ & Hd & ->). apply round1_not_nan.
  by apply leb_not_nan in Hd as [? _].
Qed.

Lemma within_radius_none stations :
  Forall (out_of_reach M lat lon radius_km) stations ->
  within_radius M lat lon radius_km stations = Ok [].
Proof.
  induction 1 as [|s stations Hs _ IH]; simpl; [done|].
  unfold out_of_reach in Hs.
  destruct (st_lat s); [|done]. destruct (st_lon s); [|done].
  destruct Hs as (d & -> & Hd). unfold mbind, result_bind.
  by rewrite IH, Hd.
Qed.

(** *** The sort *)

Lemma insert_by_distance_perm n l : insert_by_distance n l ≡ₚ n :: l.
Proof.
  induction l as [|y l IH]; simpl; [done|].
  destruct (F64.ltb _ _); [|done].
  by rewrite IH, Permutation_swap.
Qed.

Lemma sort_by_distance_perm l : sort_by_distance l ≡ₚ l.
Proof.
  induction l as [|n l IH]; simpl; [done|].
  unfold sort_by_distance in *. simpl.
  by rewrite insert_by_distance_perm, IH.
Qed.

Lemma insert_by_distance_sorted n l :
  F64.is_nan (distance_km n) = false ->
  Forall (fun y => F64.is_nan (distance_km y) = false) l ->
  StronglySorted by_distance_km l ->
  StronglySorted by_distance_km (insert_by_distance n l).
Proof.
  intros Hn Hl Hs. induction Hs as [|y l Hs IH Hy]; simpl.
  - by repeat constructor.
  - apply Forall_cons in Hl as [Hy' Hl].
    destruct (F64.ltb (distance_km y) (distance_km n)) eqn:E.
    + constructor; [by apply IH|].
      rewrite insert_by_distance_perm. constructor; [|done].
      revert E. unfold by_distance_km, F64.ltb, F64.leb, SFltb, SFleb.
      by destruct (SFcompare _ _) as [[]|].
    + apply ltb_false_leb in E; [|done..].
      constructor; [by constructor|].
      constructor; [done|].
      eapply Forall_impl; [exact Hy|].
      intros z Hz. by eapply leb_trans.
Qed.

Lemma sort_by_distance_sorted l :
  Forall (fun y => F64.is_nan (distance_km y) = false) l ->
  StronglySorted by_distance_km (sort_by_distance l).
Proof.
  induction 1 as [|n l Hn Hl IH]; [constructor|].
  change (sort_by_distance (n :: l))
    with (insert_by_distance n (sort_by_distance l)).
  apply insert_by_distance_sorted; [done| |done].
  by rewrite sort_by_distance_perm.
Qed.

(** *** The scan *)

(** What the scan returns from any state: the first MAJOR_FLOOD entry if
    there is one; otherwise the last MINOR_FLOOD entry; otherwise the first
    ALERT entry when the state is still NORMAL. *)
Lemma worst_scan_from ws w l :
  ws ≠ MAJOR_FLOOD ->
  worst_scan ws w l =
    match find (has_status MAJOR_FLOOD) l with
    | Some n => (MAJOR_FLOOD, Some n)
    | None =>
        match last_with MINOR_FLOOD l with
        | Some n => (MINOR_FLOOD, Some n)
        | None =>
            match find (has_status ALERT) l with
            | Some n => if bool_decide (ws = NORMAL) then (ALERT, Some n) else (ws, w)
            | None => (ws, w)
            end
        end
    end.
Proof.
  revert ws w. induction l as [|n l IH]; intros ws w Hws; [done|].
  simpl. unfold has_status at 1 3 4.
  destruct (st_status (ns_station n)) eqn:En; simpl.
  - rewrite IH by done. by repeat case_match.
  - destruct (bool_decide (ws = NORMAL)) eqn:Ews.
    + rewrite IH by done. repeat case_match; done.
    + rewrite IH by done. rewrite Ews. by repeat case_match.
  - rewrite bool_decide_eq_true_2 by done. rewrite IH by done.
    by repeat case_match.
  - done.
  - rewrite IH by done. by repeat case_match.
  - rewrite IH by done. by repeat case_match.
Qed.

Lemma worst_scan_spec l :
  worst_scan NORMAL None l =
    match find (has_status MAJOR_FLOOD) l with
    | Some n => (MAJOR_FLOOD, Some n)
    | None =>
        match last_with MINOR_FLOOD l with
        | Some n => (MINOR_FLOOD, Some n)
        | None =>
            match find (has_status ALERT) l with
            | Some n => (ALERT, Some n)
            | None => (NORMAL, None)
            end
        end
    end.
Proof. by rewrite worst_scan_from. Qed.

(** *** The result *)

End RiskCheck.

Lemma strongly_sorted_lookup {A} (R : relation A) (l : list A) i j a b :
  StronglySorted R l -> (i < j)%nat ->
  l !! i = Some a -> l !! j = Some b -> R a b.
Proof.
  intros Hs. revert i j.
  induction Hs as [|x l Hs IH Hx]; intros i j Hij Hi Hj; [done|].
  destruct j as [|j]; [lia|]. simpl in Hj.
  destruct i as [|i]; simpl in Hi.
  - injection Hi as ->. rewrite Forall_forall in Hx.
    by eapply Hx, list_elem_of_lookup_2.
  - apply (IH i j); [lia|done..].
Qed.

Lemma check_risk_on_inv M stations lat lon radius_km ra :
  check_risk_on M stations lat lon radius_km = Ok ra ->
  exists l,
    within_radius M lat lon radius_km stations = Ok l /\
    ra_nearby ra = take 5 (sort_by_distance l) /\
    ra_risk_level ra = risk_map (worst_scan NORMAL None (sort_by_distance l)).1 /\
    ra_summary ra = summary_of (named (sort_by_distance l)).
Proof.
  unfold check_risk_on, mbind, result_bind.
  destruct (within_radius M lat lon radius_km stations) as [l|]; [|done].
  intros Hra. exists l. split; [done|].
  assert ((worst_scan NORMAL None (sort_by_distance l)).2
          = named (sort_by_distance l)) as <-.
  { rewrite worst_scan_spec. unfold named.
    destruct (find (has_status MAJOR_FLOOD) _); [done|].
    destruct (last_with MINOR_FLOOD _); [done|].
    by destruct (find (has_status ALERT) _). }
  destruct (worst_scan NORMAL None (sort_by_distance l)) as [ws [w|]];
    injection Hra as <-; done.
Qed.

(** The first loop keeps the stations within the radius, all of them
    and in input order. *)
Lemma within_radius_stations M lat lon radius_km stations l :
  within_radius M lat lon radius_km stations = Ok l ->
  ns_station <$> l = List.filter (in_reach M lat lon radius_km) stations.
Proof.
  revert l. induction stations as [|s stations IH]; simpl; intros l.
  - by intros [= <-].
  - unfold in_reach at 1.
    destruct (st_lat s) as [slat|]; [|by auto].
    destruct (st_lon s) as [slon|]; [|by auto].
    unfold mbind, result_bind.
    destruct (_haversine M lat lon slat slon) as [d|]; [|done].
    destruct (within_radius M lat lon radius_km stations) as [tail|]; [|done].
    intros [= <-]. destruct (F64.leb d radius_km); [|by auto].
    rewrite fmap_cons. simpl. f_equal. by auto.
Qed.

Lemma within_radius_at M lat lon radius_km stations l d :
  within_radius M lat lon radius_km stations = Ok l ->
  ns_station <$> at_distance d l =
    List.filter (fun s => in_reach M lat lon radius_km s &&
                          rounds_to M lat lon d s) stations.
Proof.
  unfold at_distance.
  revert l. induction stations as [|s stations IH]; simpl; intros l.
  - by intros [= <-].
  - unfold in_reach at 1, rounds_to at 1.
    destruct (st_lat s) as [slat|]; [|by auto].
    destruct (st_lon s) as [slon|]; [|by auto].
    unfold mbind, result_bind.
    destruct (_haversine M lat lon slat slon) as [x|]; [|done].
    destruct (within_radius M lat lon radius_km stations) as [tail|]; [|done].
    intros [= <-]. destruct (F64.leb x radius_km); simpl; [|by auto].
    destruct (SFeqb (round1 x) d); [|by auto].
    rewrite fmap_cons. simpl. f_equal. by auto.
Qed.

(** What the result of [check_risk] reads is one list: the stations
    within the radius, sorted by their rounded distance. *)
Lemma check_risk_on_retained M stations lat lon radius_km ra :
  check_risk_on M stations lat lon radius_km = Ok ra ->
  exists l,
    ns_station <$> l ≡ₚ List.filter (in_reach M lat lon radius_km) stations /\
    Forall (retained M lat lon radius_km stations) l /\
    StronglySorted by_distance_km l /\
    ra_nearby ra = take 5 l /\
    ra_summary ra = summary_of (named l).
Proof.
  intros Hra.
  destruct (check_risk_on_inv _ _ _ _ _ _ Hra) as (l & Hl & Hn & _ & Hs).
  pose proof (within_radius_retained _ _ _ _ _ _ Hl) as Hret.
  exists (sort_by_distance l). split_and!; [| | |done|done].
  - by rewrite sort_by_distance_perm, (within_radius_stations _ _ _ _ _ _ Hl).
  - by rewrite sort_by_distance_perm.
  - apply sort_by_distance_sorted. eapply Forall_impl; [exact Hret|].
    intros n. apply retained_not_nan.
Qed.

(** C1: when no station with both coordinates lies within the radius, in
    particular when there is no station at all, the risk check returns the
    risk level LOW with an empty nearby list, the summary that there are
    no flood alerts and the advisory that no immediate risk is detected. *)
Theorem no_station_in_radius (M : libm) (stations : list station_record)
    (lat lon radius_km : float) :
  Forall (out_of_reach M lat lon radius_km) stations ->
  check_risk_on M stations lat lon radius_km =
    Ok {| ra_lat := lat; ra_lon := lon; ra_risk_level := LOW;
          ra_summary := NoFloodAlerts; ra_nearby := [];
          ra_advice := no_alerts_advice |}.
Proof.
  intros H. unfold check_risk_on, mbind, result_bind.
  by rewrite (within_radius_none _ _ _ _ _ H).
Qed.

Lemma no_station_in_radius_witness :
  check_risk_on glibc [no_data_at "Far" "81.0"]
    query_lat query_lon default_radius =
    Ok {| ra_lat := query_lat; ra_lon := query_lon; ra_risk_level := LOW;
          ra_summary := NoFloodAlerts; ra_nearby := [];
          ra_advice := no_alerts_advice |}.
Proof.
  apply no_station_in_radius.
  constructor; [|constructor].
  change (exists d,
            _haversine glibc query_lat query_lon (dec "7.0") (dec "81.0") = Ok d /\
            F64.leb d default_radius = false).
  exists (dec "110.3660757174536"). split; vm_compute; reflexivity.
Defined.

(** C1, as stated, fails: with no station at all, and with one station
    110 km away, the risk level is LOW, not UNKNOWN. *)
Lemma empty_risk_is_low :
  (exists ra,
     check_risk glibc [] [] query_lat query_lon default_radius = Ok ra /\
     ra_risk_level ra = LOW /\ ra_risk_level ra ≠ RISK_UNKNOWN) /\
  (exists ra,
     check_risk glibc [on_parallel "Far" "81.0"] []
       query_lat query_lon default_radius = Ok ra /\
     ra_nearby ra = [] /\
     ra_risk_level ra = LOW /\ ra_risk_level ra ≠ RISK_UNKNOWN).
Proof.
  split; eexists; (split; [vm_compute; reflexivity|]); by vm_compute.
Qed.

(** C2: the nearby list of the result is the first five entries of the
    list of the stations within the radius, sorted by distance: that list
    holds every station of the input that has both coordinates and lies
    within the radius, each once, and no other; the nearby list has five
    entries, or as many as there are such stations when they are fewer. *)
Theorem nearby_within_radius (M : libm) (stations : list station_record)
    (lat lon radius_km : float) (ra : risk_assessment) :
  check_risk_on M stations lat lon radius_km = Ok ra ->
  exists l,
    ns_station <$> l ≡ₚ List.filter (in_reach M lat lon radius_km) stations /\
    Forall (retained M lat lon radius_km stations) l /\
    StronglySorted by_distance_km l /\
    ra_nearby ra = take 5 l /\
    length (ra_nearby ra) =
      (5 `min` length (List.filter (in_reach M lat lon radius_km) stations))%nat /\
    Forall (retained M lat lon radius_km stations) (ra_nearby ra).
Proof.
  intros Hra.
  destruct (check_risk_on_retained _ _ _ _ _ _ Hra)
    as (l & Hp & Hret & Hs & Hn & _).
  exists l. split_and!; [done..| |].
  - rewrite Hn, length_take, <- Hp, length_fmap. lia.
  - rewrite Hn. by apply Forall_take.
Qed.

Lemma nearby_within_radius_witness :
  exists l,
    ns_station <$> l ≡ₚ
      List.filter (in_reach glibc query_lat query_lon default_radius)
        seven_stations /\
    Forall (retained glibc query_lat query_lon default_radius seven_stations) l /\
    StronglySorted by_distance_km l /\
    ra_nearby seven_assessment = take 5 l /\
    length (ra_nearby seven_assessment) =
      (5 `min` length (List.filter
                         (in_reach glibc query_lat query_lon default_radius)
                         seven_stations))%nat /\
    Forall (retained glibc query_lat query_lon default_radius seven_stations)
      (ra_nearby seven_assessment).
Proof.
  apply nearby_within_radius. vm_compute. reflexivity.
Defined.

(** C2, as stated, fails: a station with valid coordinates that lies
    beyond the radius is not in the nearby list, although fewer than five
    stations lie within the radius. *)
Lemma distant_station_not_nearby :
  exists ra,
    check_risk glibc [on_parallel "X" "80.0"; on_parallel "Far" "81.0"] []
      query_lat query_lon default_radius = Ok ra /\
    st_name ∘ ns_station <$> ra_nearby ra = ["X"].
Proof.
  eexists. split; [vm_compute; reflexivity|]. by vm_compute.
Qed.

(** C3: with two MINOR_FLOOD stations within the radius and no
    MAJOR_FLOOD one, the summary names the farther of the two: every
    MINOR_FLOOD entry of the scan replaces the station recorded before. *)
Theorem farther_minor_flood_named :
  exists ra,
    check_risk glibc [on_parallel "X" "80.0"; on_parallel "D" "80.1"]
      [reading "X" (PFloat (dec "9.5")) 2000;
       reading "D" (PFloat (dec "9.5")) 2000]
      query_lat query_lon default_radius = Ok ra /\
    (fun n => (st_name (ns_station n), st_status (ns_station n), distance_km n))
      <$> ra_nearby ra
      = [("X", MINOR_FLOOD, dec "0.0"); ("D", MINOR_FLOOD, dec "11.0")] /\
    ra_risk_level ra = HIGH /\
    ra_summary ra = StatusAt MINOR_FLOOD "D" (dec "11.0").
Proof.
  eexists. split; [vm_compute; reflexivity|]. by vm_compute.
Qed.

(** C8: the retained stations are sorted in ascending order of the
    distance rounded to one decimal, which is what their [distance_km]
    holds.  The list that the result reads, for its nearby entries and
    for the station of its summary, holds the stations within the radius
    and, whenever A precedes B in it, the rounded distance of A is at
    most the rounded distance of B. *)
Theorem retained_sorted_by_rounded_distance (M : libm)
    (stations : list station_record) (lat lon radius_km : float)
    (ra : risk_assessment) :
  check_risk_on M stations lat lon radius_km = Ok ra ->
  exists l,
    ns_station <$> l ≡ₚ List.filter (in_reach M lat lon radius_km) stations /\
    ra_nearby ra = take 5 l /\
    ra_summary ra = summary_of (named l) /\
    forall i j a b,
      (i < j)%nat -> l !! i = Some a -> l !! j = Some b ->
      exists da db,
        true_distance M lat lon a = Ok da /\ true_distance M lat lon b = Ok db /\
        distance_km a = round1 da /\ distance_km b = round1 db /\
        F64.leb (round1 da) (round1 db) = true.
Proof.
  intros Hra.
  destruct (check_risk_on_retained _ _ _ _ _ _ Hra)
    as (l & Hp & Hret & Hsorted & Hn & Hs).
  exists l. split_and!; [done..|].
  intros i j a b Hij Ha Hb.
  pose proof (strongly_sorted_lookup _ _ _ _ _ _ Hsorted Hij Ha Hb) as Hab.
  rewrite Forall_forall in Hret.
  destruct (Hret a) as (_ & da & Hda & _ & Eda);
    [by eapply list_elem_of_lookup_2|].
  destruct (Hret b) as (_ & db & Hdb & _ & Edb);
    [by eapply list_elem_of_lookup_2|].
  exists da, db. unfold by_distance_km in Hab.
  by rewrite Eda, Edb in Hab.
Qed.

Lemma retained_sorted_by_rounded_distance_witness :
  exists l,
    ns_station <$> l ≡ₚ
      List.filter (in_reach glibc query_lat query_lon default_radius)
        sample_records /\
    ra_nearby sample_assessment = take 5 l /\
    ra_summary sample_assessment = summary_of (named l) /\
    forall i j a b,
      (i < j)%nat -> l !! i = Some a -> l !! j = Some b ->
      exists da db,
        true_distance glibc query_lat query_lon a = Ok da /\
        true_distance glibc query_lat query_lon b = Ok db /\
        distance_km a = round1 da /\ distance_km b = round1 db /\
        F64.leb (round1 da) (round1 db) = true.
Proof.
  apply (retained_sorted_by_rounded_distance glibc sample_records
           query_lat query_lon default_radius).
  vm_compute. reflexivity.
Defined.

(** C8, as stated, fails: two stations 5.03 km and 5.01 km away both
    carry the rounded distance 5.0, so the sort leaves them in input
    order and the farther one precedes the nearer one. *)
Lemma retained_not_sorted_by_true_distance :
  exists ra a b,
    check_risk_on glibc [no_data_at "A" "80.0456"; no_data_at "B" "80.0454"]
      query_lat query_lon default_radius = Ok ra /\
    ra_nearby ra = [a; b] /\
    st_name (ns_station a) = "A" /\ st_name (ns_station b) = "B" /\
    distance_km a = dec "5.0" /\ distance_km b = dec "5.0" /\
    true_distance glibc query_lat query_lon a = Ok (dec "5.032693999479713") /\
    true_distance glibc query_lat query_lon b = Ok (dec "5.010620780201774") /\
    F64.leb (dec "5.032693999479713") (dec "5.010620780201774") = false.
Proof.
  do 3 eexists. split; [vm_compute; reflexivity|].
  split; [vm_compute; reflexivity|]. by vm_compute.
Qed.

(** * Further properties of the code *)

(** ** The classifier *)

Lemma leb_ltb_trans x y z :
  F64.leb x y = true -> F64.ltb y z = true -> F64.ltb x z = true.
Proof.
  unfold F64.leb, F64.ltb, SFleb, SFltb.
  destruct x as [[]|[]| |[] mx ex], y as [[]|[]| |[] my ey],
    z as [[]|[]| |[] mz ez]; simpl; try done;
    change (Pos.compare_cont Eq) with Pos.compare in *;
    repeat match goal with
    | |- context [Z.compare ?a ?b] => destruct (Z.compare_spec a b)
    | |- context [Pos.compare ?a ?b] => destruct (Pos.compare_spec a b)
    end; simpl in *; try done; try lia.
Qed.

(** X1: for any thresholds, ordered or not, a higher water level never
    gets a less severe tier: when the level [wl1] is at most [wl2], the
    tier of [wl2] ranks at least as severe as the tier of [wl1]. *)
Theorem classify_monotone wl1 wl2 alert minor major w1 w2 a mi ma :
  py_float wl1 = Ok w1 -> py_float wl2 = Ok w2 ->
  py_float alert = Ok a -> py_float minor = Ok mi -> py_float major = Ok ma ->
  F64.leb w1 w2 = true ->
  exists s1 s2,
    _classify wl1 alert minor major = Ok s1 /\
    _classify wl2 alert minor major = Ok s2 /\
    station_severity s2 <= station_severity s1.
Proof.
  intros H1 H2 Ha Hmi Hma Hle.
  exists (tier w1 a mi ma), (tier w2 a mi ma).
  split; [by apply _classify_floats|]. split; [by apply _classify_floats|].
  unfold tier.
  destruct (F64.ltb w2 a) eqn:E1.
  { by rewrite (leb_ltb_trans _ _ _ Hle E1). }
  destruct (F64.ltb w2 mi) eqn:E2.
  { rewrite (leb_ltb_trans _ _ _ Hle E2). by destruct (F64.ltb w1 a). }
  destruct (F64.ltb w2 ma) eqn:E3.
  { rewrite (leb_ltb_trans _ _ _ Hle E3).
    by destruct (F64.ltb w1 a), (F64.ltb w1 mi). }
  by destruct (F64.ltb w1 a), (F64.ltb w1 mi), (F64.ltb w1 ma).
Qed.

Lemma classify_monotone_witness :
  exists s1 s2,
    _classify (PFloat (dec "8.2")) (PInt 10) (PFloat (dec "7.5")) (PInt 9)
      = Ok s1 /\
    _classify (PStr "9.7") (PInt 10) (PFloat (dec "7.5")) (PInt 9) = Ok s2 /\
    station_severity s2 <= station_severity s1.
Proof.
  apply (classify_monotone _ _ _ _ _ (dec "8.2") (dec "9.7")
           (F64.of_Z 10) (dec "7.5") (F64.of_Z 9));
    vm_compute; reflexivity.
Defined.

(** X2: the classifier either returns one of NORMAL, ALERT, MINOR_FLOOD,
    MAJOR_FLOOD and UNKNOWN, or raises OverflowError because one of the
    values is an integer beyond the range of a float; it never raises
    TypeError or ValueError and never returns NO_DATA. *)
Theorem classify_outcomes wl alert minor major :
  (exists s, _classify wl alert minor major = Ok s /\ s <> NO_DATA) \/
  (_classify wl alert minor major = Raise OverflowError /\
   (too_large wl \/ too_large alert \/ too_large minor \/ too_large major)).
Proof.
  unfold _classify, too_large, mbind, result_bind.
  destruct (py_float wl) as [w|[]]; eauto 6;
    destruct (py_float alert) as [a|[]]; eauto 6;
    destruct (py_float minor) as [mi|[]]; eauto 6;
    destruct (py_float major) as [ma|[]]; eauto 7.
  left. repeat case_match; eauto.
Qed.

(** X3: a water level that is NaN is classified MAJOR_FLOOD whatever the
    thresholds are, and so is any water level when the three thresholds are
    NaN: every comparison with NaN is false. *)
Theorem classify_nan wl alert minor major w a mi ma :
  py_float wl = Ok w -> py_float alert = Ok a ->
  py_float minor = Ok mi -> py_float major = Ok ma ->
  F64.is_nan w = true \/
  (F64.is_nan a = true /\ F64.is_nan mi = true /\ F64.is_nan ma = true) ->
  _classify wl alert minor major = Ok MAJOR_FLOOD.
Proof.
  intros Hw Ha Hmi Hma Hnan.
  rewrite (_classify_floats _ _ _ _ _ _ _ _ Hw Ha Hmi Hma). unfold tier.
  destruct Hnan as [Hn|(H1 & H2 & H3)].
  - by destruct w.
  - destruct a, mi, ma; try done. by destruct w.
Qed.

Lemma classify_nan_witness :
  _classify (PStr "NaN") (PFloat (dec "7.5")) (PInt 9) (PInt 10)
    = Ok MAJOR_FLOOD.
Proof.
  apply (classify_nan _ _ _ _ S754_nan (dec "7.5") (F64.of_Z 9) (F64.of_Z 10));
    try (vm_compute; reflexivity).
  left. reflexivity.
Defined.

(** ** The latest reading per gauge, continued *)

Lemma latest_fold_empty_key (features : list gauge_attrs)
    (latest : gmap string gauge_attrs) :
  latest !! "" = None -> foldl latest_step latest features !! "" = None.
Proof.
  revert latest. induction features as [|a features IH]; intros latest H;
    simpl; [done|].
  apply IH. unfold latest_step.
  destruct (gauge a) as [g|]; [|done].
  case_bool_decide; simpl; [|done].
  case_bool_decide; simpl; [|done].
  by rewrite lookup_insert_ne.
Qed.

Lemma find_has_gauge (features : list gauge_attrs) g a :
  find (has_gauge g) features = Some a -> gauge a = Some g /\ a ∈ features.
Proof.
  induction features as [|b features IH]; simpl; [done|].
  destruct (has_gauge g b) eqn:E.
  - intros [= ->]. split; [by apply bool_decide_eq_true_1 in E|by left].
  - intros H. destruct (IH H). split; [done|by right].
Qed.

Lemma find_has_gauge_is_Some (features : list gauge_attrs) g a :
  a ∈ features -> gauge a = Some g -> is_Some (find (has_gauge g) features).
Proof.
  induction features as [|b features IH]; intros Hin Hg.
  - by apply elem_of_nil in Hin.
  - simpl. destruct (has_gauge g b) eqn:E; [by eexists|].
    apply elem_of_cons in Hin as [->|Hin]; [|by apply IH].
    unfold has_gauge in E. by rewrite bool_decide_eq_true_2 in E.
Qed.

(** X4: the dictionary of latest readings has exactly the non-empty
    gauge names of the rows as keys, and the reading stored under a name is
    a row of the response that carries that name; rows without a gauge
    name or with an empty one are never stored. *)
Theorem latest_readings_keys (features : list gauge_attrs) :
  (forall g a,
      _fetch_latest_readings features !! g = Some a ->
      g ≠ "" /\ gauge a = Some g /\ a ∈ features) /\
  (forall g a,
      a ∈ features -> gauge a = Some g -> g ≠ "" ->
      is_Some (_fetch_latest_readings features !! g)).
Proof.
  split.
  - intros g a H. destruct (decide (g = "")) as [->|Hg].
    + unfold _fetch_latest_readings in H.
      by rewrite latest_fold_empty_key in H.
    + rewrite first_reading in H by done.
      by destruct (find_has_gauge _ _ _ H).
  - intros g a Hin Hg Hne. rewrite first_reading by done.
    by eapply find_has_gauge_is_Some.
Qed.

Lemma find_app_Some {A} (p : A -> bool) (l1 l2 : list A) a :
  find p l1 = Some a -> find p (l1 ++ l2) = Some a.
Proof.
  induction l1 as [|b l1 IH]; simpl; [done|]. by destruct (p b).
Qed.

(** X5: rows that come later never replace a stored reading: what the
    loop holds for a gauge name after a prefix of the rows is what it
    holds after all of them. *)
Theorem latest_readings_prefix (l1 l2 : list gauge_attrs) g a :
  _fetch_latest_readings l1 !! g = Some a ->
  _fetch_latest_readings (l1 ++ l2) !! g = Some a.
Proof.
  intros H. destruct (decide (g = "")) as [->|Hg].
  - unfold _fetch_latest_readings in H.
    by rewrite latest_fold_empty_key in H.
  - rewrite first_reading in * by done. by apply find_app_Some.
Qed.

Lemma latest_readings_prefix_witness :
  _fetch_latest_readings
    ([reading "Hanwella" (PFloat (dec "10.81")) 2000] ++
     [reading "Glencourse" (PInt 12) 1500;
      reading "Hanwella" (PFloat (dec "9.5")) 1000]) !! "Hanwella"
    = Some (reading "Hanwella" (PFloat (dec "10.81")) 2000).
Proof.
  apply latest_readings_prefix. vm_compute. reflexivity.
Defined.

Lemma latest_readings_keys_witness :
  "Hanwella" ≠ "" /\
  gauge (reading "Hanwella" (PFloat (dec "10.81")) 2000) = Some "Hanwella" /\
  reading "Hanwella" (PFloat (dec "10.81")) 2000
    ∈ [reading "Hanwella" (PFloat (dec "10.81")) 2000;
       reading "Hanwella" (PFloat (dec "9.5")) 1000].
Proof.
  apply (proj1 (latest_readings_keys
                  [reading "Hanwella" (PFloat (dec "10.81")) 2000;
                   reading "Hanwella" (PFloat (dec "9.5")) 1000])).
  vm_compute. reflexivity.
Defined.

(** ** The station join, continued *)

Lemma _classify_cases wl alert minor major :
  (exists s, _classify wl alert minor major = Ok s /\ s <> NO_DATA) \/
  (_classify wl alert minor major = Raise OverflowError /\
   (too_large wl \/ too_large alert \/ too_large minor \/ too_large major)).
Proof.
  unfold _classify, too_large, mbind, result_bind.
  destruct (py_float wl) as [w|[]]; eauto 6;
    destruct (py_float alert) as [a|[]]; eauto 6;
    destruct (py_float minor) as [mi|[]]; eauto 6;
    destruct (py_float major) as [ma|[]]; eauto 7.
  left. repeat case_match; eauto.
Qed.

Lemma station_row_name readings s row :
  station_row readings s = Ok row -> st_name <$> row = kept_name s.
Proof.
  unfold station_row, kept_name, mbind, result_bind.
  destruct (f_station s) as [name|]; simpl.
  - destruct (bool_decide (name = "") || bool_decide (f_x s = None));
      [by intros [= <-]|].
    destruct (match readings !! name with Some _ => _ | None => _ end);
      [|done]. by intros [= <-].
  - by intros [= <-].
Qed.

(** The fields of a record that come from the reading. *)
Lemma station_row_reading readings s r :
  station_row readings s = Ok (Some r) ->
  match readings !! st_name r with
  | None =>
      st_status r = NO_DATA /\ st_water_level r = PNone /\
      st_thresholds r = None /\ st_updated r = None
  | Some a =>
      _classify (water_level a) (alertpull a) (minorpull a) (majorpull a)
        = Ok (st_status r) /\
      st_water_level r = water_level a /\
      st_thresholds r = Some (alertpull a, minorpull a, majorpull a) /\
      st_updated r = _parse_timestamp (CreationDate a)
  end.
Proof.
  unfold station_row, mbind, result_bind.
  destruct (bool_decide _ || bool_decide _); [done|].
  destruct (readings !! default "" (f_station s)) as [a|] eqn:Ea; simpl.
  - destruct (_classify _ _ _ _) as [st|] eqn:Ec; [|done].
    intros [= <-]. simpl. by rewrite Ea.
  - intros [= <-]. simpl. by rewrite Ea.
Qed.

(** X6: the join keeps the order of the station entries: the names of
    the records are the names of the entries that have a non-empty name
    and a longitude, one record per such entry, in input order. *)
Theorem join_keeps_order (readings : gmap string gauge_attrs)
    (stations : list station_feature) (records : list station_record) :
  join_stations readings stations = Ok records ->
  st_name <$> records = omap kept_name stations.
Proof.
  revert records. induction stations as [|s stations IH]; simpl;
    intros records.
  - by intros [= <-].
  - unfold mbind at 1 2, result_bind.
    destruct (station_row readings s) as [row|] eqn:Es; [|done].
    destruct (join_stations readings stations) as [rest|]; [|done].
    intros [= <-]. apply station_row_name in Es.
    rewrite <- Es. pose proof (IH _ eq_refl) as IH'.
    destruct row; simpl; [f_equal|]; exact IH'.
Qed.

Lemma join_keeps_order_witness :
  st_name <$>
    [no_data_at "Glencourse" "80.18"; no_data_at "Hanwella" "80.083"]
  = omap kept_name
      [on_parallel "Glencourse" "80.18";
       feature "" None (Some (dec "80.0")) (Some (dec "7.0"));
       feature "Kitulgala" None None (Some (dec "7.0"));
       on_parallel "Hanwella" "80.083"].
Proof.
  apply (join_keeps_order ∅). vm_compute. reflexivity.
Defined.

(** X7: every field of a record that depends on the readings is read
    from the first row that carries the station's name: the status is the
    classification of that row, the water level and the thresholds are its
    raw values; without such a row the status is NO_DATA and the three
    fields are null. *)
Theorem join_reads_first_row (stations : list station_feature)
    (gauges : list gauge_attrs) (records : list station_record)
    (r : station_record) :
  get_all_stations stations gauges = Ok records -> r ∈ records ->
  match find (has_gauge (st_name r)) gauges with
  | None =>
      st_status r = NO_DATA /\ st_water_level r = PNone /\
      st_thresholds r = None /\ st_updated r = None
  | Some a =>
      _classify (water_level a) (alertpull a) (minorpull a) (majorpull a)
        = Ok (st_status r) /\
      st_water_level r = water_level a /\
      st_thresholds r = Some (alertpull a, minorpull a, majorpull a) /\
      st_updated r = _parse_timestamp (CreationDate a)
  end.
Proof.
  intros Hj Hr.
  destruct (join_stations_elem _ _ _ _ Hj Hr) as (s & _ & Hs).
  pose proof (station_row_Some _ _ _ Hs) as (_ & Hne & _).
  apply station_row_reading in Hs. by rewrite first_reading in Hs.
Qed.

Lemma join_reads_first_row_witness :
  match find (has_gauge (st_name record_x))
          [reading "X" (PStr "9.5") 2000; reading "X" (PInt 7) 1000] with
  | None =>
      st_status record_x = NO_DATA /\ st_water_level record_x = PNone /\
      st_thresholds record_x = None /\ st_updated record_x = None
  | Some a =>
      _classify (water_level a) (alertpull a) (minorpull a) (majorpull a)
        = Ok (st_status record_x) /\
      st_water_level record_x = water_level a /\
      st_thresholds record_x = Some (alertpull a, minorpull a, majorpull a) /\
      st_updated record_x = _parse_timestamp (CreationDate a)
  end.
Proof.
  apply (join_reads_first_row [on_parallel "X" "80.0"]
           [reading "X" (PStr "9.5") 2000; reading "X" (PInt 7) 1000]
           [record_x] record_x).
  - vm_compute. reflexivity.
  - by left.
Defined.

(** X8: a record has status NO_DATA exactly when no row of the gauges
    response carries the station's name; a station with a row is never
    NO_DATA, whatever the row holds. *)
Theorem no_data_iff_no_row (stations : list station_feature)
    (gauges : list gauge_attrs) (records : list station_record)
    (r : station_record) :
  get_all_stations stations gauges = Ok records -> r ∈ records ->
  (st_status r = NO_DATA <-> find (has_gauge (st_name r)) gauges = None).
Proof.
  intros Hj Hr.
  destruct (join_stations_elem _ _ _ _ Hj Hr) as (s & _ & Hs).
  pose proof (station_row_Some _ _ _ Hs) as (_ & Hne & _).
  apply station_row_reading in Hs. rewrite first_reading in Hs by done.
  destruct (find _ gauges) as [a|]; [|by destruct Hs].
  destruct Hs as (Hc & _). split; [|done]. intros Hst.
  destruct (_classify_cases (water_level a) (alertpull a)
              (minorpull a) (majorpull a)) as [(st & Hst' & ?)|[? _]];
    congruence.
Qed.

Lemma no_data_iff_no_row_witness :
  NO_DATA = NO_DATA <->
  find (has_gauge "Hanwella") [reading "Glencourse" (PInt 12) 1500] = None.
Proof.
  apply (no_data_iff_no_row [on_parallel "Hanwella" "80.083"]
           [reading "Glencourse" (PInt 12) 1500]
           [no_data_at "Hanwella" "80.083"] (no_data_at "Hanwella" "80.083")).
  - vm_compute. reflexivity.
  - by left.
Defined.

(** *** Stripping *)

Lemma lstrip_split l :
  exists p, l = p ++ str_lstrip l /\
            Forall (fun c => str_isspace c = true) p.
Proof.
  induction l as [|c l (p & Hl & Hp)]; simpl; [by exists []|].
  destruct (str_isspace c) eqn:Ec; [|by exists []].
  exists (c :: p). split; [by rewrite Hl at 1|by constructor].
Qed.

Lemma lstrip_head l :
  match str_lstrip l with
  | c :: _ => str_isspace c = false
  | [] => True
  end.
Proof.
  induction l as [|c l IH]; simpl; [done|].
  by destruct (str_isspace c) eqn:Ec.
Qed.

Lemma lstrip_id l :
  match l with c :: _ => str_isspace c = false | [] => True end ->
  str_lstrip l = l.
Proof. destruct l as [|c l]; simpl; [done|]. by intros ->. Qed.

Lemma lstrip_last l c :
  last l = Some c -> str_isspace c = false ->
  last (str_lstrip l) = Some c.
Proof.
  induction l as [|d l IH]; simpl; [done|]. intros Hl Hc.
  destruct (str_isspace d) eqn:Ed; [|done].
  apply IH; [|done]. destruct l as [|e l]; [|done].
  simpl in Hl. congruence.
Qed.

Lemma rev_reverse {A} (l : list A) : rev l = reverse l.
Proof. apply rev_alt. Qed.

Lemma strip_idempotent l : strip_chars (strip_chars l) = strip_chars l.
Proof.
  unfold strip_chars.
  set (A := str_lstrip l).
  assert (HA : match A with c :: _ => str_isspace c = false | [] => True end)
    by apply lstrip_head.
  set (B := str_lstrip (rev A)).
  assert (HB : match B with c :: _ => str_isspace c = false | [] => True end)
    by apply lstrip_head.
  assert (str_lstrip (rev B) = rev B) as ->.
  { apply lstrip_id. destruct A as [|c A']; [done|].
    assert (last B = Some c) as HlB.
    { apply lstrip_last; [|done]. by rewrite rev_reverse, last_reverse. }
    destruct (rev B) as [|d B'] eqn:EB; [done|].
    assert (head (rev B) = Some c) as Hh
      by (by rewrite rev_reverse, head_reverse).
    rewrite EB in Hh. simpl in Hh. congruence. }
  rewrite rev_involutive. by rewrite (lstrip_id B HB).
Qed.

(** X10: the basin of a record carries no whitespace at either end:
    stripping it again changes nothing. *)
Theorem basin_is_stripped (readings : gmap string gauge_attrs)
    (stations : list station_feature) (records : list station_record)
    (r : station_record) :
  join_stations readings stations = Ok records -> r ∈ records ->
  str_strip (st_basin r) = st_basin r.
Proof.
  intros Hj Hr.
  destruct (join_stations_elem _ _ _ _ Hj Hr) as (s & _ & Hs).
  apply station_row_Some in Hs as (_ & _ & _ & _ & _ & ->).
  unfold str_strip. rewrite list_ascii_of_string_of_list_ascii.
  by rewrite strip_idempotent.
Qed.

Lemma basin_is_stripped_witness :
  str_strip "Kelani Ganga" = "Kelani Ganga".
Proof.
  apply (basin_is_stripped ∅
           [feature "Hanwella" (Some "  Kelani Ganga ") (Some (dec "80.083"))
              (Some (dec "6.909"))]
           [{| st_name := "Hanwella"; st_basin := "Kelani Ganga";
               st_lat := Some (dec "6.909"); st_lon := Some (dec "80.083");
               st_status := NO_DATA; st_water_level := PNone;
               st_thresholds := None; st_updated := None |}]
           {| st_name := "Hanwella"; st_basin := "Kelani Ganga";
              st_lat := Some (dec "6.909"); st_lon := Some (dec "80.083");
              st_status := NO_DATA; st_water_level := PNone;
              st_thresholds := None; st_updated := None |}).
  - vm_compute. reflexivity.
  - by left.
Defined.

(** ** The risk check, continued *)

Section RiskLevel.

Implicit Types (n m : nearby_station) (l : list nearby_station).

Lemma find_status_Some st l n :
  find (has_status st) l = Some n -> n ∈ l /\ status_of n = st.
Proof.
  intros H. apply find_some in H as [Hin Hp].
  split; [by apply list_elem_of_In|by apply bool_decide_eq_true_1 in Hp].
Qed.

Lemma find_status_None st l :
  find (has_status st) l = None -> forall m, m ∈ l -> status_of m ≠ st.
Proof.
  intros H m Hm Hst. apply list_elem_of_In in Hm.
  pose proof (find_none _ _ H m Hm) as Hp.
  unfold has_status in Hp. by rewrite bool_decide_eq_true_2 in Hp.
Qed.

Lemma last_with_Some st l n :
  last_with st l = Some n -> n ∈ l /\ status_of n = st.
Proof.
  induction l as [|m l IH]; simpl; [done|].
  destruct (last_with st l) as [k|].
  - intros [= ->]. destruct (IH eq_refl). split; [by right|done].
  - destruct (has_status st m) eqn:E; [|done]. intros [= ->].
    split; [by left|by apply bool_decide_eq_true_1 in E].
Qed.

Lemma last_with_None st l :
  last_with st l = None -> forall m, m ∈ l -> status_of m ≠ st.
Proof.
  induction l as [|k l IH]; simpl; intros H m Hm.
  - by apply elem_of_nil in Hm.
  - destruct (last_with st l); [done|].
    destruct (has_status st k) eqn:E; [done|].
    apply elem_of_cons in Hm as [->|Hm]; [|by apply IH].
    intros Hst. unfold has_status in E.
    by rewrite bool_decide_eq_true_2 in E.
Qed.

(** The four ways the scan can end. *)
Lemma worst_scan_cases l :
  (exists n, worst_scan NORMAL None l = (MAJOR_FLOOD, Some n) /\
             n ∈ l /\ status_of n = MAJOR_FLOOD) \/
  (exists n, worst_scan NORMAL None l = (MINOR_FLOOD, Some n) /\
             n ∈ l /\ status_of n = MINOR_FLOOD /\
             forall m, m ∈ l -> status_of m ≠ MAJOR_FLOOD) \/
  (exists n, worst_scan NORMAL None l = (ALERT, Some n) /\
             n ∈ l /\ status_of n = ALERT /\
             forall m, m ∈ l ->
               status_of m ≠ MAJOR_FLOOD /\ status_of m ≠ MINOR_FLOOD) \/
  (worst_scan NORMAL None l = (NORMAL, None) /\
   forall m, m ∈ l ->
     status_of m ≠ MAJOR_FLOOD /\ status_of m ≠ MINOR_FLOOD /\
     status_of m ≠ ALERT).
Proof.
  rewrite worst_scan_from by done.
  destruct (find (has_status MAJOR_FLOOD) l) as [n|] eqn:E1.
  { left. exists n. by destruct (find_status_Some _ _ _ E1). }
  pose proof (find_status_None _ _ E1) as N1.
  destruct (last_with MINOR_FLOOD l) as [n|] eqn:E2.
  { right. left. exists n. by destruct (last_with_Some _ _ _ E2). }
  pose proof (last_with_None _ _ E2) as N2.
  destruct (find (has_status ALERT) l) as [n|] eqn:E3.
  { right. right. left. exists n.
    destruct (find_status_Some _ _ _ E3). split_and!; try done.
    intros m Hm. split; [by apply N1|by apply N2]. }
  pose proof (find_status_None _ _ E3) as N3.
  right. right. right. split; [done|].
  intros m Hm. split_and!; [by apply N1|by apply N2|by apply N3].
Qed.

(** What [check_risk] derives from the outcome of the scan. *)
Lemma check_risk_on_fields (M : libm) stations lat lon radius_km l :
  within_radius M lat lon radius_km stations = Ok l ->
  exists ra,
    check_risk_on M stations lat lon radius_km = Ok ra /\
    ra_risk_level ra = risk_map (worst_scan NORMAL None (sort_by_distance l)).1 /\
    ra_summary ra =
      match (worst_scan NORMAL None (sort_by_distance l)).2 with
      | Some n => StatusAt (status_of n) (st_name (ns_station n)) (distance_km n)
      | None => NoFloodAlerts
      end.
Proof.
  intros Hl. unfold check_risk_on, mbind, result_bind. rewrite Hl.
  destruct (worst_scan NORMAL None (sort_by_distance l)) as [ws [w|]];
    eexists; split_and!; reflexivity.
Qed.

Lemma ltb_eqb_distinct x y d :
  F64.ltb y x = true -> SFeqb x d = true -> SFeqb y d = false.
Proof.
  unfold F64.ltb, SFltb, SFeqb.
  destruct x as [[]|[]| |[] mx ex], y as [[]|[]| |[] my ey],
    d as [[]|[]| |[] md ed]; simpl; try done;
    change (Pos.compare_cont Eq) with Pos.compare in *;
    repeat match goal with
    | |- context [Z.compare ?a ?b] => destruct (Z.compare_spec a b)
    | |- context [Pos.compare ?a ?b] => destruct (Pos.compare_spec a b)
    end; simpl in *; try done; try lia.
Qed.

Lemma insert_by_distance_at d n l :
  at_distance d (insert_by_distance n l) = at_distance d (n :: l).
Proof.
  unfold at_distance. induction l as [|m l IH]; [done|].
  simpl in *. destruct (F64.ltb (distance_km m) (distance_km n)) eqn:E;
    [|done].
  simpl. rewrite IH.
  destruct (SFeqb (distance_km n) d) eqn:En; [|done].
  by rewrite (ltb_eqb_distinct _ _ _ E En).
Qed.

Lemma sort_by_distance_at d l :
  at_distance d (sort_by_distance l) = at_distance d l.
Proof.
  induction l as [|n l IH]; [done|].
  change (sort_by_distance (n :: l))
    with (insert_by_distance n (sort_by_distance l)).
  rewrite insert_by_distance_at. unfold at_distance in *. simpl.
  by rewrite IH.
Qed.

End RiskLevel.

(** X11: the station the summary names is the first MAJOR_FLOOD station
    of the retained list if there is one, otherwise the last MINOR_FLOOD
    station, otherwise the first ALERT station; with none of these the
    summary is the sentence that there are no flood alerts. *)
Theorem summary_station (M : libm) (stations : list station_record)
    (lat lon radius_km : float) (l : list nearby_station) :
  within_radius M lat lon radius_km stations = Ok l ->
  exists ra,
    check_risk_on M stations lat lon radius_km = Ok ra /\
    ra_summary ra =
      match find (has_status MAJOR_FLOOD) (sort_by_distance l) with
      | Some n => StatusAt MAJOR_FLOOD (st_name (ns_station n)) (distance_km n)
      | None =>
          match last_with MINOR_FLOOD (sort_by_distance l) with
          | Some n =>
              StatusAt MINOR_FLOOD (st_name (ns_station n)) (distance_km n)
          | None =>
              match find (has_status ALERT) (sort_by_distance l) with
              | Some n =>
                  StatusAt ALERT (st_name (ns_station n)) (distance_km n)
              | None => NoFloodAlerts
              end
          end
      end.
Proof.
  intros Hl.
  destruct (check_risk_on_fields _ _ _ _ _ _ Hl) as (ra & Hra & _ & Hs).
  exists ra. split; [done|]. rewrite Hs, worst_scan_from by done.
  destruct (find (has_status MAJOR_FLOOD) _) as [n|] eqn:E1; simpl.
  { by destruct (find_status_Some _ _ _ E1) as [_ ->]. }
  destruct (last_with MINOR_FLOOD _) as [n|] eqn:E2; simpl.
  { by destruct (last_with_Some _ _ _ E2) as [_ ->]. }
  destruct (find (has_status ALERT) _) as [n|] eqn:E3; simpl; [|done].
  by destruct (find_status_Some _ _ _ E3) as [_ ->].
Qed.

Lemma summary_station_witness :
  (exists ra,
     check_risk_on glibc sample_records query_lat query_lon default_radius
       = Ok ra /\
     ra_summary ra = StatusAt MAJOR_FLOOD "A" (dec "5.0")) /\
  (exists ra,
     check_risk_on glibc
       [flooding_at "D" "80.1" MINOR_FLOOD (PFloat (dec "9.5")); record_x;
        flooding_at "A" "80.0456" MINOR_FLOOD (PFloat (dec "9.25"))]
       query_lat query_lon default_radius = Ok ra /\
     ra_summary ra = StatusAt MINOR_FLOOD "D" (dec "11.0")) /\
  (exists ra,
     check_risk_on glibc
       [flooding_at "D" "80.1" ALERT (PInt 8); no_data_at "X" "80.0";
        flooding_at "A" "80.0456" ALERT (PInt 8)]
       query_lat query_lon default_radius = Ok ra /\
     ra_summary ra = StatusAt ALERT "A" (dec "5.0")).
Proof.
  split_and!.
  - destruct (summary_station glibc sample_records
                query_lat query_lon default_radius
                [nearby_at (flooding_at "D" "80.1" MINOR_FLOOD
                              (PFloat (dec "9.5"))) "11.0";
                 nearby_at (flooding_at "A" "80.0456" MAJOR_FLOOD (PInt 11))
                   "5.0";
                 nearby_at (flooding_at "B" "80.0454" MAJOR_FLOOD
                              (PFloat (dec "12.25"))) "5.0"])
      as (ra & H1 & H2); [vm_compute; reflexivity|].
    exists ra. split; [exact H1|]. rewrite H2. vm_compute. reflexivity.
  - destruct (summary_station glibc
                [flooding_at "D" "80.1" MINOR_FLOOD (PFloat (dec "9.5"));
                 record_x;
                 flooding_at "A" "80.0456" MINOR_FLOOD (PFloat (dec "9.25"))]
                query_lat query_lon default_radius
                [nearby_at (flooding_at "D" "80.1" MINOR_FLOOD
                              (PFloat (dec "9.5"))) "11.0";
                 nearby_at record_x "0.0";
                 nearby_at (flooding_at "A" "80.0456" MINOR_FLOOD
                              (PFloat (dec "9.25"))) "5.0"])
      as (ra & H1 & H2); [vm_compute; reflexivity|].
    exists ra. split; [exact H1|]. rewrite H2. vm_compute. reflexivity.
  - destruct (summary_station glibc
                [flooding_at "D" "80.1" ALERT (PInt 8); no_data_at "X" "80.0";
                 flooding_at "A" "80.0456" ALERT (PInt 8)]
                query_lat query_lon default_radius
                [nearby_at (flooding_at "D" "80.1" ALERT (PInt 8)) "11.0";
                 nearby_at (no_data_at "X" "80.0") "0.0";
                 nearby_at (flooding_at "A" "80.0456" ALERT (PInt 8)) "5.0"])
      as (ra & H1 & H2); [vm_compute; reflexivity|].
    exists ra. split; [exact H1|]. rewrite H2. vm_compute. reflexivity.
Defined.

(** The risk level, read off the retained list. *)
Lemma risk_level_retained (M : libm) (stations : list station_record)
    (lat lon radius_km : float) (l : list nearby_station) :
  within_radius M lat lon radius_km stations = Ok l ->
  exists ra,
    check_risk_on M stations lat lon radius_km = Ok ra /\
    (ra_risk_level ra = HIGH <->
       exists n, n ∈ l /\
         (status_of n = MAJOR_FLOOD \/ status_of n = MINOR_FLOOD)) /\
    (ra_risk_level ra = MEDIUM <->
       (forall n, n ∈ l ->
          status_of n ≠ MAJOR_FLOOD /\ status_of n ≠ MINOR_FLOOD) /\
       exists n, n ∈ l /\ status_of n = ALERT) /\
    (ra_risk_level ra = LOW <->
       forall n, n ∈ l ->
         status_of n ≠ MAJOR_FLOOD /\ status_of n ≠ MINOR_FLOOD /\
         status_of n ≠ ALERT) /\
    ra_risk_level ra ≠ RISK_UNKNOWN /\
    (ra_summary ra = NoFloodAlerts <-> ra_risk_level ra = LOW).
Proof.
  intros Hl.
  destruct (check_risk_on_fields _ _ _ _ _ _ Hl) as (ra & Hra & Hr & Hs).
  exists ra. split; [done|]. rewrite Hr, Hs. clear Hra Hr Hs.
  assert (Hin : forall n, n ∈ sort_by_distance l <-> n ∈ l)
    by (intros n; by rewrite sort_by_distance_perm).
  destruct (worst_scan_cases (sort_by_distance l))
    as [(n & -> & Hn & Hst)|[(n & -> & Hn & Hst & N1)|
        [(n & -> & Hn & Hst & N2)|[-> N3]]]]; simpl.
  - apply Hin in Hn. split_and!; [|split; [done|]..|done|done].
    + split; [intros _; exists n; auto|done].
    + intros [H _]. by destruct (H n Hn) as [? _].
    + intros H. by destruct (H n Hn) as [? _].
  - apply Hin in Hn. split_and!; [|split; [done|]..|done|done].
    + split; [intros _; exists n; auto|done].
    + intros [H _]. by destruct (H n Hn) as [_ ?].
    + intros H. by destruct (H n Hn) as (_ & ? & _).
  - apply Hin in Hn. split_and!; [split; [done|]| |split; [done|]|done|done].
    + intros (m & Hm & Hs). apply Hin in Hm.
      destruct (N2 m Hm). by destruct Hs.
    + split; [intros _|done]. split; [|by exists n].
      intros m Hm. apply N2. by apply Hin.
    + intros H. by destruct (H n Hn) as (_ & _ & ?).
  - split_and!; [split; [done|]|split; [done|]| |done|done].
    + intros (m & Hm & Hs). apply Hin in Hm.
      destruct (N3 m Hm) as (? & ? & ?). by destruct Hs.
    + intros [_ (m & Hm & Hs)]. apply Hin in Hm.
      by destruct (N3 m Hm) as (? & ? & ?).
    + split; [intros _|done]. intros m Hm. apply N3. by apply Hin.
Qed.

Lemma check_risk_on_Ok (M : libm) stations lat lon radius_km ra :
  check_risk_on M stations lat lon radius_km = Ok ra ->
  exists l, within_radius M lat lon radius_km stations = Ok l.
Proof.
  unfold check_risk_on, mbind, result_bind.
  destruct (within_radius M lat lon radius_km stations); [by eexists|done].
Qed.

Lemma status_in_reach_retained M lat lon radius_km stations l st :
  within_radius M lat lon radius_km stations = Ok l ->
  (exists n, n ∈ l /\ status_of n = st) <->
  status_in_reach M lat lon radius_km stations st.
Proof.
  intros Hl. apply within_radius_stations in Hl. unfold status_in_reach.
  split.
  - intros (n & Hn & Hst). exists (ns_station n).
    assert (ns_station n ∈ ns_station <$> l) as Hin
      by (apply list_elem_of_fmap; eauto).
    rewrite Hl, list_elem_of_In, filter_In, <- list_elem_of_In in Hin.
    by destruct Hin.
  - intros (s & Hs & Hr & Hst).
    assert (s ∈ ns_station <$> l) as Hin.
    { rewrite Hl, list_elem_of_In, filter_In, <- list_elem_of_In. done. }
    apply list_elem_of_fmap in Hin as (n & -> & Hn). by exists n.
Qed.

(** X12: the risk level is HIGH exactly when some station of the input
    within the radius is in MAJOR_FLOOD or MINOR_FLOOD, MEDIUM exactly
    when none is but some is in ALERT, and LOW otherwise; it is never
    UNKNOWN, and stations in NO_DATA or UNKNOWN do not count.  The summary
    reports no flood alerts exactly when the level is LOW. *)
Theorem risk_level_spec (M : libm) (stations : list station_record)
    (lat lon radius_km : float) (ra : risk_assessment) :
  check_risk_on M stations lat lon radius_km = Ok ra ->
  let near := status_in_reach M lat lon radius_km stations in
  (ra_risk_level ra = HIGH <-> near MAJOR_FLOOD \/ near MINOR_FLOOD) /\
  (ra_risk_level ra = MEDIUM <->
     ~ near MAJOR_FLOOD /\ ~ near MINOR_FLOOD /\ near ALERT) /\
  (ra_risk_level ra = LOW <->
     ~ near MAJOR_FLOOD /\ ~ near MINOR_FLOOD /\ ~ near ALERT) /\
  ra_risk_level ra ≠ RISK_UNKNOWN /\
  (ra_summary ra = NoFloodAlerts <-> ra_risk_level ra = LOW).
Proof.
  intros Hra near.
  destruct (check_risk_on_Ok _ _ _ _ _ _ Hra) as [l Hl].
  destruct (risk_level_retained _ _ _ _ _ _ Hl)
    as (ra' & Hra' & HH & HM & HL & HU & HS).
  assert (ra' = ra) as -> by congruence.
  pose proof (fun st => status_in_reach_retained _ _ _ _ _ _ st Hl) as Hst.
  fold near in Hst.
  split_and!; [| | |done|done].
  - rewrite HH. split.
    + intros (n & Hn & [E|E]); [left|right]; apply Hst; eauto.
    + intros [H|H]; apply Hst in H as (n & Hn & E); eauto.
  - rewrite HM. split.
    + intros [Hno (n & Hn & E)]. split_and!.
      * intros (m & Hm & Em)%Hst. by destruct (Hno m Hm).
      * intros (m & Hm & Em)%Hst. by destruct (Hno m Hm).
      * apply Hst. eauto.
    + intros (H1 & H2 & H3). split.
      * intros n Hn. split; intros E; [apply H1|apply H2]; apply Hst; eauto.
      * by apply Hst.
  - rewrite HL. split.
    + intros Hno. split_and!; intros (m & Hm & Em)%Hst;
        by destruct (Hno m Hm) as (? & ? & ?).
    + intros (H1 & H2 & H3) n Hn.
      split_and!; intros E; [apply H1|apply H2|apply H3]; apply Hst; eauto.
Qed.

Lemma risk_level_spec_witness :
  let near :=
    status_in_reach glibc query_lat query_lon default_radius sample_records in
  (ra_risk_level sample_assessment = HIGH <->
     near MAJOR_FLOOD \/ near MINOR_FLOOD) /\
  (ra_risk_level sample_assessment = MEDIUM <->
     ~ near MAJOR_FLOOD /\ ~ near MINOR_FLOOD /\ near ALERT) /\
  (ra_risk_level sample_assessment = LOW <->
     ~ near MAJOR_FLOOD /\ ~ near MINOR_FLOOD /\ ~ near ALERT) /\
  ra_risk_level sample_assessment ≠ RISK_UNKNOWN /\
  (ra_summary sample_assessment = NoFloodAlerts <->
     ra_risk_level sample_assessment = LOW).
Proof.
  apply (risk_level_spec glibc sample_records
           query_lat query_lon default_radius).
  vm_compute. reflexivity.
Defined.

(** X13: when the summary names a station, that station is one of the
    input whose distance from the point is at most the radius, the status
    and the rounded distance in the summary are its own, the status is
    MAJOR_FLOOD, MINOR_FLOOD or ALERT, and it determines the risk level. *)
Theorem summary_names_retained (M : libm) (stations : list station_record)
    (lat lon radius_km : float) (ra : risk_assessment)
    (st : status) (name : string) (d : float) :
  check_risk_on M stations lat lon radius_km = Ok ra ->
  ra_summary ra = StatusAt st name d ->
  (st = MAJOR_FLOOD \/ st = MINOR_FLOOD \/ st = ALERT) /\
  ra_risk_level ra = risk_map st /\
  exists n,
    retained M lat lon radius_km stations n /\
    status_of n = st /\ st_name (ns_station n) = name /\ distance_km n = d.
Proof.
  intros Hra Hsum.
  destruct (check_risk_on_Ok _ _ _ _ _ _ Hra) as [l Hl].
  destruct (check_risk_on_fields _ _ _ _ _ _ Hl) as (ra' & Hra' & Hr & Hs).
  assert (ra' = ra) as -> by congruence.
  rewrite Hr. rewrite Hs in Hsum. clear Hr Hs Hra'.
  pose proof (within_radius_retained _ _ _ _ _ _ Hl) as Hret.
  rewrite <- (sort_by_distance_perm l), Forall_forall in Hret.
  destruct (worst_scan_cases (sort_by_distance l))
    as [(n & E & Hn & Hst)|[(n & E & Hn & Hst & _)|
        [(n & E & Hn & Hst & _)|[E _]]]];
    rewrite E in *; simpl in *; [..|done];
    injection Hsum as <- <- <-; rewrite Hst;
    (split; [auto|]); (split; [done|]); exists n; auto.
Qed.

Lemma summary_names_retained_witness :
  (MINOR_FLOOD = MAJOR_FLOOD \/ MINOR_FLOOD = MINOR_FLOOD \/
   MINOR_FLOOD = ALERT) /\
  HIGH = risk_map MINOR_FLOOD /\
  exists n,
    retained glibc query_lat query_lon default_radius
      [no_data_at "Far" "81.0"; record_x] n /\
    status_of n = MINOR_FLOOD /\ st_name (ns_station n) = "X" /\
    distance_km n = dec "0.0".
Proof.
  apply (summary_names_retained glibc [no_data_at "Far" "81.0"; record_x]
           query_lat query_lon default_radius
           {| ra_lat := query_lat; ra_lon := query_lon;
              ra_risk_level := HIGH;
              ra_summary := StatusAt MINOR_FLOOD "X" (dec "0.0");
              ra_nearby :=
                [{| ns_station := record_x; distance_km := dec "0.0" |}];
              ra_advice :=
                "Active flooding detected nearby. If you are near Kelani Ganga, move to higher ground and follow official alerts." |}).
  - vm_compute. reflexivity.
  - reflexivity.
Defined.

(** X14: the sort of the retained stations is stable.  In the sorted
    list that the result reads, the entries with a given rounded distance
    are the stations of the input within the radius at that rounded
    distance, in the order in which the input lists them. *)
Theorem retained_sort_stable (M : libm) (stations : list station_record)
    (lat lon radius_km : float) (ra : risk_assessment) :
  check_risk_on M stations lat lon radius_km = Ok ra ->
  exists l,
    StronglySorted by_distance_km l /\
    ra_nearby ra = take 5 l /\
    ra_summary ra = summary_of (named l) /\
    forall d,
      ns_station <$> at_distance d l =
        List.filter (fun s => in_reach M lat lon radius_km s &&
                              rounds_to M lat lon d s) stations.
Proof.
  intros Hra.
  destruct (check_risk_on_inv _ _ _ _ _ _ Hra) as (l & Hl & Hn & _ & Hs).
  exists (sort_by_distance l). split_and!; [|done|done|].
  - apply sort_by_distance_sorted.
    eapply Forall_impl; [exact (within_radius_retained _ _ _ _ _ _ Hl)|].
    intros n. apply retained_not_nan.
  - intros d. rewrite sort_by_distance_at. by apply within_radius_at.
Qed.

Lemma retained_sort_stable_witness :
  exists l,
    StronglySorted by_distance_km l /\
    ra_nearby sample_assessment = take 5 l /\
    ra_summary sample_assessment = summary_of (named l) /\
    forall d,
      ns_station <$> at_distance d l =
        List.filter
          (fun s => in_reach glibc query_lat query_lon default_radius s &&
                    rounds_to glibc query_lat query_lon d s) sample_records.
Proof.
  apply (retained_sort_stable glibc sample_records
           query_lat query_lon default_radius).
  vm_compute. reflexivity.
Defined.

(** ** Geodesy *)

Section Haversine.

Implicit Types (x y d : float).

Lemma binary_round_aux_opp s m e l :
  binary_round_aux F64.prec F64.emax (negb s) m e l
  = SFopp (binary_round_aux F64.prec F64.emax s m e l).
Proof.
  unfold binary_round_aux.
  destruct (shr_fexp F64.prec F64.emax m e l) as [mrs' e'].
  destruct (shr_fexp F64.prec F64.emax _ e' loc_Exact) as [mrs'' e''].
  destruct (shr_m mrs''); [done| |done]. by destruct (_ <=? _).
Qed.

Lemma mul_opp_l x y : F64.mul (SFopp x) y = SFopp (F64.mul x y).
Proof.
  destruct x as [sx|sx| |sx mx ex], y as [sy|sy| |sy my ey]; simpl;
    try done; try (by destruct sx, sy).
  rewrite <- binary_round_aux_opp. by destruct sx, sy.
Qed.

Lemma div_opp_l x y : F64.div (SFopp x) y = SFopp (F64.div x y).
Proof.
  destruct x as [sx|sx| |sx mx ex], y as [sy|sy| |sy my ey]; simpl;
    try done; try (by destruct sx, sy).
  destruct (SFdiv_core_binary _ _ _ _ _ _) as [[mz ez] lz].
  rewrite <- binary_round_aux_opp. by destruct sx, sy.
Qed.

Lemma mul_comm x y : F64.mul x y = F64.mul y x.
Proof.
  destruct x as [sx|sx| |sx mx ex], y as [sy|sy| |sy my ey]; simpl;
    try done; try (by destruct sx, sy).
  by rewrite Pos.mul_comm, Z.add_comm, xorb_comm.
Qed.

Lemma opp_involutive x : SFopp (SFopp x) = x.
Proof. by destruct x as [[]|[]| |[] m e]. Qed.

Lemma binary_normalize_opp z e :
  z <> 0 ->
  binary_normalize F64.prec F64.emax (- z) e false
  = SFopp (binary_normalize F64.prec F64.emax z e false).
Proof.
  intros Hz. destruct z as [|p|p]; [done|..]; simpl; unfold binary_round;
    destruct (shl_align _ _ _) as [mz ez].
  - apply (binary_round_aux_opp false).
  - by rewrite (binary_round_aux_opp false), opp_involutive.
Qed.

End Haversine.

Lemma sub_swap x y :
  F64.sub y x = SFopp (F64.sub x y) \/
  (F64.sub x y = F64.zero /\ F64.sub y x = F64.zero).
Proof.
  destruct x as [sx|sx| |sx mx ex], y as [sy|sy| |sy my ey]; simpl;
    try (by left); try (by destruct sx, sy; auto).
  rewrite (Z.min_comm ey ex).
    set (a := cond_Zopp sx _). set (b := cond_Zopp sy _).
  destruct (decide (a - b = 0)) as [E|E].
  - right. rewrite E. replace (b - a) with 0 by lia. done.
  - left. replace (b - a) with (- (a - b)) by lia.
    by apply binary_normalize_opp.
Qed.

Lemma math_1_opp (f : float -> float) x :
  f (SFopp x) = SFopp (f x) ->
  math_1 f (SFopp x) =
    match math_1 f x with Ok r => Ok (SFopp r) | Raise e => Raise e end.
Proof.
  intros H. unfold math_1. rewrite H.
  by destruct (f x) as [[]|[]| |[] m e], x as [[]|[]| |[] m' e'].
Qed.

Lemma pow2_opp M x : pow2 M (SFopp x) = pow2 M x.
Proof. by destruct x as [[]|[]| |[] m e]. Qed.

Lemma half_chord_sq_opp M d :
  sin_odd M -> half_chord_sq M (SFopp d) = half_chord_sq M d.
Proof.
  intros Hodd. unfold half_chord_sq, radians, mbind, result_bind.
  rewrite mul_opp_l, div_opp_l, math_1_opp by apply Hodd.
  destruct (math_1 _ _); [|done]. apply pow2_opp.
Qed.

Lemma half_chord_sq_swap M x y :
  sin_odd M -> half_chord_sq M (F64.sub y x) = half_chord_sq M (F64.sub x y).
Proof.
  intros Hodd. destruct (sub_swap x y) as [->|[-> ->]]; [|done].
  by apply half_chord_sq_opp.
Qed.

Lemma math_1_cases f x :
  (exists r, math_1 f x = Ok r) \/ math_1 f x = Raise ValueError.
Proof. unfold math_1. repeat case_match; eauto. Qed.

Lemma haversine_unfold M lat1 lon1 lat2 lon2 :
  _haversine M lat1 lon1 lat2 lon2 =
    (p1 ← half_chord_sq M (F64.sub lat2 lat1);
     c1 ← math_1 (c_cos M) (radians lat1);
     c2 ← math_1 (c_cos M) (radians lat2);
     p2 ← half_chord_sq M (F64.sub lon2 lon1);
     let a := F64.add p1 (F64.mul (F64.mul c1 c2) p2) in
     q1 ← math_1 F64.sqrt a;
     q2 ← math_1 F64.sqrt (F64.sub F64.one a);
     t ← math_2 (c_atan2 M) q1 q2;
     Ok (F64.mul (F64.mul (F64.of_Z 6371) F64.two) t)).
Proof.
  unfold _haversine, half_chord_sq, mbind, result_bind.
  destruct (math_1 (c_sin M) _); [|done].
  destruct (pow2 M _); [|done].
  destruct (math_1 (c_cos M) _); [|done].
  destruct (math_1 (c_cos M) _); [|done].
  destruct (math_1 (c_sin M) _); [|done]. done.
Qed.

(** X15: the distance is symmetric: when the sine of the C library is an
    odd function, [_haversine] returns the same float, or raises the same
    exception, for a pair of points and for the pair swapped. *)
Theorem haversine_symmetric M lat1 lon1 lat2 lon2 :
  sin_odd M ->
  _haversine M lat1 lon1 lat2 lon2 = _haversine M lat2 lon2 lat1 lon1.
Proof.
  intros Hodd. rewrite !haversine_unfold.
  rewrite (half_chord_sq_swap M lat1 lat2 Hodd),
    (half_chord_sq_swap M lon1 lon2 Hodd).
  unfold mbind, result_bind.
  destruct (half_chord_sq M (F64.sub lat1 lat2)) as [p1|]; [|done].
  destruct (math_1_cases (c_cos M) (radians lat1)) as [[c1 ->]| ->],
    (math_1_cases (c_cos M) (radians lat2)) as [[c2 ->]| ->]; try done.
  by rewrite (mul_comm c1 c2).
Qed.

Lemma haversine_symmetric_witness :
  _haversine glibc_odd query_lat query_lon (dec "7.0") (dec "80.1")
  = _haversine glibc_odd (dec "7.0") (dec "80.1") query_lat query_lon.
Proof.
  apply haversine_symmetric.
  intros [[]|[]| |[] m e]; cbn [glibc_odd c_sin sign_bit SFopp SFabs negb];
    try reflexivity; by rewrite opp_involutive.
Defined.


Lemma sub_diag x : F64.is_finite x = true -> F64.sub x x = F64.zero.
Proof.
  destruct x as [[]| | |s m e]; try done. intros _. simpl.
  by rewrite Z.sub_diag.
Qed.

Lemma mul_zero_r x :
  F64.is_finite x = true -> exists s, F64.mul x F64.zero = S754_zero s.
Proof. destruct x as [s| | |s m e]; try done; intros _; by eexists. Qed.

Lemma is_finite_square c :
  F64.is_finite (F64.mul c c) = true -> F64.is_finite c = true.
Proof. by destruct c as [[]|[]| |[] m e]. Qed.

(** X16: the distance from a point with finite coordinates to itself is
    exactly 0.0, when the C library gives sin(0) = 0 and atan2(0, 1) = 0
    and the square of the cosine of the latitude is finite. *)
Theorem haversine_self M lat lon :
  F64.is_finite lat = true -> F64.is_finite lon = true ->
  c_sin M F64.zero = F64.zero ->
  c_atan2 M F64.zero F64.one = F64.zero ->
  F64.is_finite
    (F64.mul (c_cos M (radians lat)) (c_cos M (radians lat))) = true ->
  _haversine M lat lon lat lon = Ok F64.zero.
Proof.
  intros Hlat Hlon Hsin Hatan Hcos.
  rewrite haversine_unfold, !sub_diag by done.
  assert (half_chord_sq M F64.zero = Ok F64.zero) as ->.
  { unfold half_chord_sq, mbind, result_bind.
    change (F64.div (radians F64.zero) F64.two) with F64.zero.
    unfold math_1. by rewrite Hsin. }
  unfold mbind, result_bind.
  set (c := c_cos M (radians lat)) in *.
  assert (math_1 (c_cos M) (radians lat) = Ok c) as ->.
  { unfold math_1. fold c. apply is_finite_square in Hcos.
    by destruct c as [[]|[]| |[] m e]. }
  destruct (mul_zero_r _ Hcos) as [s ->].
  replace (F64.add F64.zero (S754_zero s)) with F64.zero by by destruct s.
  change (math_1 F64.sqrt F64.zero) with (Ok F64.zero).
  change (math_1 F64.sqrt (F64.sub F64.one F64.zero)) with (Ok F64.one).
  unfold math_2. rewrite Hatan. done.
Qed.


Lemma haversine_self_witness :
  _haversine glibc query_lat query_lon query_lat query_lon = Ok F64.zero.
Proof. apply haversine_self; vm_compute; reflexivity. Defined.

(** ** Rivers *)

Lemma fetch_pages_S {A E} (get : nat -> E + list A) fuel offset acc :
  fetch_pages get (S fuel) offset acc =
    match get offset with
    | inl e => Some (inl e)
    | inr [] => Some (inr acc)
    | inr features =>
        if (length features <? 1000)%nat then Some (inr (acc ++ features))
        else fetch_pages get fuel (offset + 1000) (acc ++ features)
    end.
Proof. done. Qed.

Lemma fetch_pages_all {A E} (db : list A) cap fuel offset acc :
  (1000 <= cap)%nat ->
  (length (drop offset db) < fuel * 1000)%nat ->
  fetch_pages (paged (E:=E) db cap) fuel offset acc
  = Some (inr (acc ++ drop offset db)).
Proof.
  intros Hcap. revert offset acc.
  induction fuel as [|fuel IH]; intros offset acc Hlen; [lia|].
  rewrite fetch_pages_S.
  assert (paged (E:=E) db cap offset = inr (take 1000 (drop offset db)))
    as -> by (unfold paged; by rewrite Nat.min_r).
  destruct (take 1000 (drop offset db)) as [|a page] eqn:Ep.
  - destruct (drop offset db) as [|b rest] eqn:Ed; [|done].
    by rewrite app_nil_r.
  - rewrite <- Ep.
    pose proof (length_take (drop offset db) 1000%nat) as Hl.
    destruct (Nat.ltb_spec (length (take 1000 (drop offset db))) 1000)
      as [Hlt|Hge].
    + by rewrite take_ge by lia.
    + rewrite IH.
      * by rewrite <- app_assoc, <- drop_drop, take_drop.
      * rewrite <- drop_drop, length_drop. lia.
Qed.

Lemma paged_fetch {A E} (db : list A) (cap : nat) :
  (0 < cap)%nat ->
  exists fuel,
    _fetch_rivers_paginated (paged (E:=E) db cap) fuel
    = Some (inr (if (cap <? 1000)%nat then take cap db else db)).
Proof.
  intros Hcap. destruct (Nat.ltb_spec cap 1000) as [Hlt|Hge].
  - exists 1%nat. unfold _fetch_rivers_paginated. rewrite fetch_pages_S.
    assert (paged (E:=E) db cap 0 = inr (take cap db)) as ->
      by (unfold paged; by rewrite Nat.min_l, drop_0 by lia).
    destruct (take cap db) as [|a page] eqn:Ep; [done|].
    rewrite <- Ep.
    pose proof (length_take db cap) as Hl.
    destruct (Nat.ltb_spec (length (take cap db)) 1000); [done|lia].
  - exists (S (length db)). unfold _fetch_rivers_paginated.
    rewrite fetch_pages_all; [done|done|]. rewrite drop_0. lia.
Qed.

(** X17: against a service that pages a table of rivers honestly, the
    pagination loop ends and returns the whole table when the service
    serves full pages of 1000 rows; when the service caps its pages below
    1000 rows the loop stops after the first page and returns only the
    first [cap] rows. *)
Theorem fetch_rivers_complete {A E} (db : list A) (cap : nat) :
  (0 < cap)%nat ->
  exists fuel,
    _fetch_rivers_paginated (paged (E:=E) db cap) fuel
    = Some (inr (if (cap <? 1000)%nat then take cap db else db)).
Proof. apply paged_fetch. Qed.

Lemma fetch_rivers_complete_witness :
  exists fuel,
    _fetch_rivers_paginated (paged (E:=unit) (seq 0 2500) 2000) fuel
    = Some (inr (seq 0 2500)).
Proof. apply (fetch_rivers_complete (seq 0 2500) 2000). lia. Defined.

Lemma inner_loop_lines {P} (f : river_feature P) (geojson : list (line_string P)) :
  foldl (fun geojson path =>
           geojson ++ [{| ls_fid := FID f; ls_coordinates := path |}])
    geojson (paths f)
  = geojson ++ lines_of f.
Proof.
  unfold lines_of. generalize (paths f) as ps. intros ps. revert geojson.
  induction ps as [|p ps IH]; intros geojson; simpl.
  - by rewrite app_nil_r.
  - by rewrite IH, <- app_assoc.
Qed.

Lemma rivers_to_geojson_lines {P} (features : list (river_feature P)) :
  rivers_to_geojson features = features ≫= lines_of.
Proof.
  unfold rivers_to_geojson.
  enough (forall acc,
            foldl (fun geojson f =>
                     foldl (fun geojson path =>
                              geojson ++
                              [{| ls_fid := FID f; ls_coordinates := path |}])
                       geojson (paths f)) acc features
            = acc ++ (features ≫= lines_of)) as H by apply (H []).
  induction features as [|f features IH]; intros acc; simpl.
  - by rewrite app_nil_r.
  - by rewrite IH, inner_loop_lines, <- app_assoc.
Qed.

(** X18: against a service that serves full pages, [get_rivers_geojson]
    ends and returns, for every river of the table in order, one
    LineString per path of the river, carrying the river's FID; their
    number is the total number of paths. *)
Theorem rivers_geojson_complete {P E} (db : list (river_feature P))
    (cap : nat) :
  (1000 <= cap)%nat ->
  exists fuel,
    get_rivers_geojson (paged (E:=E) db cap) fuel
      = Some (inr (db ≫= lines_of)) /\
    length (db ≫= lines_of) = sum_list (length ∘ paths <$> db).
Proof.
  intros Hcap.
  destruct (paged_fetch (E:=E) db cap ltac:(lia)) as [fuel Hf].
  exists fuel. split.
  - unfold get_rivers_geojson. rewrite Hf.
    destruct (Nat.ltb_spec cap 1000); [lia|].
    by rewrite rivers_to_geojson_lines.
  - clear. induction db as [|f db IH]; simpl; [done|].
    rewrite length_app. f_equal; [|exact IH].
    unfold lines_of. by rewrite length_fmap.
Qed.

Lemma rivers_geojson_complete_witness :
  exists fuel,
    get_rivers_geojson
      (paged (E:=unit)
         [{| FID := PInt 1; paths := [[1; 2]; [3]] |};
          {| FID := PInt 2; paths := [] |};
          {| FID := PInt 3; paths := [[4]] |}] 2000) fuel
      = Some (inr ([{| FID := PInt 1; paths := [[1; 2]; [3]] |};
                    {| FID := PInt 2; paths := [] |};
                    {| FID := PInt 3; paths := [[4]] |}] ≫= lines_of)) /\
    length ([{| FID := PInt 1; paths := [[1; 2]; [3]] |};
             {| FID := PInt 2; paths := [] |};
             {| FID := PInt 3; paths := [[4]] |}] ≫= lines_of)
    = sum_list (length ∘ paths <$>
                  [{| FID := PInt 1; paths := [[1; 2]; [3]] |};
                   {| FID := PInt 2; paths := [] |};
                   {| FID := PInt 3; paths := [[4]] |}]).
Proof. apply rivers_geojson_complete. lia. Defined.

(** ** The nearest station *)

Lemma ltb_false_trans x o d :
  F64.ltb x o = false -> F64.ltb d o = true -> F64.ltb x d = false.
Proof.
  unfold F64.ltb, SFltb.
  destruct x as [[]|[]| |[] mx ex], o as [[]|[]| |[] mo eo],
    d as [[]|[]| |[] md ed]; simpl; try done;
    change (Pos.compare_cont Eq) with Pos.compare in *;
    repeat match goal with
    | |- context [Z.compare ?a ?b] => destruct (Z.compare_spec a b)
    | |- context [Pos.compare ?a ?b] => destruct (Pos.compare_spec a b)
    end; simpl in *; try done; try lia.
Qed.

Lemma ltb_irrefl x : F64.ltb x x = false.
Proof.
  unfold F64.ltb, SFltb. destruct x as [[]|[]| |[] m e]; simpl; try done;
    by rewrite Z.compare_refl, Pos.compare_cont_refl.
Qed.

Lemma nearest_loop_Some M lat lon best features b seen :
  nearest_loop M lat lon best features = Ok (Some b) ->
  match best with
  | Some b0 =>
      nr_feature b0 ∈ seen /\ measured M lat lon b0 /\
      Forall (no_nearer M lat lon b0) seen
  | None => Forall (fun f => ~ located f) seen
  end ->
  nr_feature b ∈ seen ++ features /\ measured M lat lon b /\
  Forall (no_nearer M lat lon b) (seen ++ features).
Proof.
  revert best seen. induction features as [|f features IH];
    intros best seen; simpl.
  - intros [= ->]. by rewrite app_nil_r.
  - intros Hloop Hbest.
    replace (seen ++ f :: features) with ((seen ++ [f]) ++ features)
      by by rewrite <- app_assoc.
    assert (Hskip : ~ located f ->
              match best with
              | Some b0 =>
                  nr_feature b0 ∈ seen ++ [f] /\ measured M lat lon b0 /\
                  Forall (no_nearer M lat lon b0) (seen ++ [f])
              | None => Forall (fun f => ~ located f) (seen ++ [f])
              end).
    { intros Hf. destruct best as [b0|].
      - destruct Hbest as (Hin & Hm & Hall).
        split_and!; [apply elem_of_app; by left|done|].
        apply Forall_app. split; [done|]. constructor; [|done].
        intros x' y' Hx' Hy'. destruct Hf. split; by eexists.
      - apply Forall_app. split; [done|]. by constructor. }
    destruct (f_x f) as [x|] eqn:Ex, (f_y f) as [y|] eqn:Ey;
      [|apply (IH _ _ Hloop), Hskip; intros [[? ?] [? ?]]; congruence..].
    clear Hskip. unfold mbind, result_bind in Hloop.
    destruct (haversine M lat lon y x) as [d|] eqn:Ed; [|done].
    apply (IH _ _ Hloop). clear IH Hloop.
    assert (Hme : measured M lat lon {| nr_feature := f; dist_km := d |})
      by (exists x, y; done).
    assert (Hf : f ∈ seen ++ [f]) by (apply elem_of_app; right; by left).
    assert (Hself : no_nearer M lat lon {| nr_feature := f; dist_km := d |} f).
    { intros x' y' ? ?. simplify_eq. exists d. split; [done|].
      apply ltb_irrefl. }
    destruct best as [b0|].
    + destruct Hbest as (Hin & Hm & Hall).
      destruct (F64.ltb d (dist_km b0)) eqn:El.
      * split_and!; [done|done|].
        apply Forall_app. split; [|by constructor].
        eapply Forall_impl; [exact Hall|]. intros g Hg x' y' Hx' Hy'.
        destruct (Hg x' y' Hx' Hy') as (d' & Hd' & Hlt).
        exists d'. split; [done|]. simpl. by eapply ltb_false_trans.
      * split_and!; [apply elem_of_app; by left|done|].
        apply Forall_app. split; [done|]. constructor; [|done].
        intros x' y' ? ?. simplify_eq. by exists d.
    + split_and!; [done|done|].
      apply Forall_app. split; [|by constructor].
      eapply Forall_impl; [exact Hbest|]. intros g Hg x' y' Hx' Hy'.
      destruct Hg. split; by eexists.
Qed.

Lemma nearest_loop_None M lat lon best features :
  nearest_loop M lat lon best features = Ok None ->
  best = None /\ Forall (fun f => ~ located f) features.
Proof.
  revert best. induction features as [|f features IH]; intros best; simpl.
  - by intros [= ->].
  - destruct (f_x f) as [x|] eqn:Ex, (f_y f) as [y|] eqn:Ey.
    + unfold mbind, result_bind.
      destruct (haversine M lat lon y x) as [d|]; [|done].
      intros H. apply IH in H as [H _].
      destruct best as [b0|]; [|done]. by destruct (F64.ltb _ _).
    + intros H. destruct (IH _ H). split; [done|].
      constructor; [|done]. intros [_ [? ?]]. congruence.
    + intros H. destruct (IH _ H). split; [done|].
      constructor; [|done]. intros [[? ?] _]. congruence.
    + intros H. destruct (IH _ H). split; [done|].
      constructor; [|done]. intros [[? ?] _]. congruence.
Qed.

Lemma nearest_loop_unlocated M lat lon best features :
  Forall (fun f => ~ located f) features ->
  nearest_loop M lat lon best features = Ok best.
Proof.
  induction 1 as [|f features Hf _ IH]; simpl; [done|].
  destruct (f_x f) as [x|] eqn:Ex, (f_y f) as [y|] eqn:Ey; try done.
  destruct Hf. split; by eexists.
Qed.

(** X20: the entry [find_nearest_station] returns is a feature of the
    input with both coordinates, its distance is the computed distance to
    that feature, and no feature with coordinates is strictly nearer. *)
Theorem nearest_station_minimal M features lat lon b :
  find_nearest_station M features lat lon = inr b ->
  nr_feature b ∈ features /\ measured M lat lon b /\
  Forall (no_nearer M lat lon b) features.
Proof.
  unfold find_nearest_station.
  destruct (nearest_loop M lat lon None features) as [[b'|]|] eqn:E;
    [|done..].
  intros [= ->]. by apply (nearest_loop_Some _ _ _ None features b []).
Qed.

Lemma nearest_station_minimal_witness :
  nr_feature {| nr_feature := on_parallel "X" "80.0"; dist_km := dec "0.0" |}
    ∈ [on_parallel "D" "80.1"; feature "Kitulgala" None None None;
       on_parallel "X" "80.0"] /\
  measured glibc query_lat query_lon
    {| nr_feature := on_parallel "X" "80.0"; dist_km := dec "0.0" |} /\
  Forall (no_nearer glibc query_lat query_lon
            {| nr_feature := on_parallel "X" "80.0"; dist_km := dec "0.0" |})
    [on_parallel "D" "80.1"; feature "Kitulgala" None None None;
     on_parallel "X" "80.0"].
Proof.
  apply nearest_station_minimal. vm_compute. reflexivity.
Defined.

(** X21: [find_nearest_station] raises its RuntimeError exactly when no
    feature of the input has both coordinates; this covers the empty
    input. *)
Theorem nearest_station_none M features lat lon msg :
  find_nearest_station M features lat lon = inl (RuntimeError msg) <->
  Forall (fun f => ~ located f) features /\
  msg = "could not compute nearest station".
Proof.
  unfold find_nearest_station. split.
  - destruct (nearest_loop M lat lon None features) as [[b|]|] eqn:E;
      [done| |done].
    intros [= <-]. by destruct (nearest_loop_None _ _ _ _ _ E).
  - intros [H ->]. by rewrite nearest_loop_unlocated.
Qed.

Lemma nearest_station_none_witness :
  find_nearest_station glibc
    [feature "Kitulgala" None None (Some (dec "7.0"));
     feature "Hanwella" None (Some (dec "80.083")) None]
    query_lat query_lon
  = inl (RuntimeError "could not compute nearest station").
Proof.
  apply nearest_station_none. split; [|done].
  repeat constructor; intros [[? ?] [? ?]]; done.
Defined.

(** ** The flooding summary *)

Lemma by_status_lookup stations st :
  default [] (by_status stations !! st) = with_status st stations.
Proof.
  unfold by_status, with_status.
  enough (forall acc : gmap status (list station_record),
            default [] (foldl (fun by_status s =>
                                 <[st_status s :=
                                     default [] (by_status !! st_status s)
                                       ++ [s]]> by_status) acc stations !! st)
            = default [] (acc !! st)
                ++ List.filter (fun s => bool_decide (st_status s = st)) stations)
    as H by (by rewrite H, lookup_empty).
  induction stations as [|s stations IH]; intros acc; simpl.
  - by rewrite app_nil_r.
  - rewrite IH. case_bool_decide as E.
    + rewrite E, lookup_insert_eq. simpl. by rewrite <- app_assoc.
    + by rewrite lookup_insert_ne.
Qed.

Lemma with_status_partition stations :
  length stations =
    (length (with_status MAJOR_FLOOD stations) +
     length (with_status MINOR_FLOOD stations) +
     length (with_status ALERT stations) +
     length (with_status NORMAL stations) +
     length (with_status NO_DATA stations) +
     length (with_status UNKNOWN stations))%nat.
Proof.
  unfold with_status. induction stations as [|s stations IH]; simpl; [done|].
  destruct (st_status s); simpl; lia.
Qed.

Lemma mapM_length {A B} (f : A -> result B) l bs :
  mapM f l = Ok bs -> length bs = length l.
Proof.
  revert bs. induction l as [|a l IH]; simpl; intros bs.
  - by intros [= <-].
  - unfold mbind, result_bind. destruct (f a); [|done].
    destruct (mapM f l) as [bs'|]; [|done].
    intros [= <-]. simpl. by rewrite (IH _ eq_refl).
Qed.

Lemma mapM_raise {A B} (f : A -> result B) l e a :
  (forall x e', f x = Raise e' -> e' = e) ->
  a ∈ l -> f a = Raise e -> mapM f l = Raise e.
Proof.
  intros He Ha Hf. induction l as [|b l IH]; [by apply elem_of_nil in Ha|].
  simpl. unfold mbind, result_bind.
  destruct (f b) as [y|e'] eqn:Eb; [|by rewrite (He _ _ Eb)].
  apply elem_of_cons in Ha as [->|Ha]; [congruence|].
  by rewrite (IH Ha).
Qed.

Lemma mapM_Ok {A B} (f : A -> result B) l :
  Forall (fun a => exists b, f a = Ok b) l -> exists bs, mapM f l = Ok bs.
Proof.
  induction 1 as [|a l [b Hb] _ [bs IH]]; simpl; [by eexists|].
  unfold mbind, result_bind. rewrite Hb, IH. by eexists.
Qed.

Lemma flooding_key_raise x e :
  flooding_key x = Raise e -> e = TypeError.
Proof.
  unfold flooding_key, neg_level, mbind, result_bind.
  destruct (st_water_level x) as [| | |f|t| |]; try done.
  - by destruct (SFeqb f F64.zero).
  - case_bool_decide; [done|]. by intros [= <-].
  - by intros [= <-].
Qed.

Lemma with_status_elem st stations s :
  s ∈ with_status st stations <-> s ∈ stations /\ st_status s = st.
Proof.
  unfold with_status. rewrite !list_elem_of_In, filter_In.
  by rewrite bool_decide_eq_true.
Qed.

(** X22: the summary counts every station once: total_stations is the
    number of records, the four counts are the numbers of records with
    status MAJOR_FLOOD, MINOR_FLOOD, ALERT and NORMAL, and they add up to
    the total only together with the NO_DATA and UNKNOWN records, which
    have no count of their own. *)
Theorem summary_counts list_sort (stations : list station_record)
    (fs : flooding_summary) :
  flooding_summary_on list_sort stations = Ok fs ->
  fs_total_stations fs = length stations /\
  fs_major_flood fs = length (with_status MAJOR_FLOOD stations) /\
  fs_minor_flood fs = length (with_status MINOR_FLOOD stations) /\
  fs_alert fs = length (with_status ALERT stations) /\
  fs_normal fs = length (with_status NORMAL stations) /\
  fs_total_stations fs =
    (fs_major_flood fs + fs_minor_flood fs + fs_alert fs + fs_normal fs +
     length (with_status NO_DATA stations) +
     length (with_status UNKNOWN stations))%nat.
Proof.
  unfold flooding_summary_on, mbind, result_bind.
  destruct (mapM flooding_key _); [|done]. intros [= <-]. simpl.
  rewrite !by_status_lookup. split_and!; try done.
  apply with_status_partition.
Qed.

(** X23: when a station in MAJOR_FLOOD or MINOR_FLOOD carries its water
    level as text, which the classifier accepts, the summary raises
    TypeError: the sort key negates the level. *)
Theorem summary_text_level list_sort (stations : list station_feature)
    (gauges : list gauge_attrs) (records : list station_record)
    (s : station_record) :
  get_all_stations stations gauges = Ok records ->
  s ∈ records ->
  st_status s = MAJOR_FLOOD \/ st_status s = MINOR_FLOOD ->
  textual (st_water_level s) ->
  get_flooding_summary list_sort stations gauges = Raise TypeError.
Proof.
  intros Hrec Hs Hst (t & Ht & Hne).
  unfold get_flooding_summary, mbind at 1, result_bind. rewrite Hrec.
  unfold flooding_summary_on, mbind, result_bind.
  rewrite !by_status_lookup.
  rewrite (mapM_raise flooding_key _ TypeError s); [done| | |].
  - apply flooding_key_raise.
  - apply elem_of_app. destruct Hst; [left|right]; by apply with_status_elem.
  - unfold flooding_key, neg_level, mbind, result_bind. rewrite Ht.
    by rewrite bool_decide_eq_false_2.
Qed.

(** X24: when the level of every station in MAJOR_FLOOD or MINOR_FLOOD
    is a number, the summary returns; its flooding stations are the
    MAJOR_FLOOD and MINOR_FLOOD records, each once, and its affected basins
    are the non-empty basin labels of these records. *)
Theorem summary_flooding list_sort (stations : list station_record) :
  (forall l, list_sort l ≡ₚ l.*2) ->
  Forall (fun s =>
            st_status s = MAJOR_FLOOD \/ st_status s = MINOR_FLOOD ->
            ~ textual (st_water_level s) /\ st_water_level s <> POther)
    stations ->
  exists fs,
    flooding_summary_on list_sort stations = Ok fs /\
    fs_flooding_stations fs ≡ₚ
      flooding_row_of <$>
        (with_status MAJOR_FLOOD stations ++ with_status MINOR_FLOOD stations) /\
    forall b, b ∈ fs_affected_basins fs <->
      b ≠ "" /\ exists s, s ∈ stations /\ st_basin s = b /\
        (st_status s = MAJOR_FLOOD \/ st_status s = MINOR_FLOOD).
Proof.
  intros Hperm Hnum.
  unfold flooding_summary_on, mbind, result_bind.
  rewrite !by_status_lookup.
  set (flooding := with_status MAJOR_FLOOD stations ++
                   with_status MINOR_FLOOD stations).
  assert (Hin : forall s, s ∈ flooding <->
            s ∈ stations /\
            (st_status s = MAJOR_FLOOD \/ st_status s = MINOR_FLOOD)).
  { intros s. unfold flooding. rewrite elem_of_app, !with_status_elem.
    split; [intros [[? ?]|[? ?]]; auto|intros [? [?|?]]; auto]. }
  destruct (mapM_Ok flooding_key flooding) as [keys Hkeys].
  { apply Forall_forall. intros s Hs. apply Hin in Hs as [Hs Hst].
    rewrite Forall_forall in Hnum. destruct (Hnum s Hs Hst) as [Htext Hoth].
    unfold flooding_key, neg_level, mbind, result_bind.
    destruct (st_water_level s) as [| | |f|t| |].
    - by eexists.
    - by eexists.
    - by eexists.
    - destruct (SFeqb f F64.zero); by eexists.
    - case_bool_decide as E; [by eexists|]. destruct Htext. by exists t.
    - done.
    - by eexists. }
  rewrite Hkeys. eexists. split; [done|]. simpl.
  assert (Hsorted : list_sort (zip keys flooding) ≡ₚ flooding).
  { rewrite Hperm. rewrite snd_zip; [done|].
    by rewrite (mapM_length _ _ _ Hkeys). }
  split; [by rewrite Hsorted|].
  intros b. rewrite elem_of_list_to_set, list_elem_of_In, filter_In.
  rewrite <- list_elem_of_In, negb_true_iff, bool_decide_eq_false.
  rewrite Hsorted, list_elem_of_fmap. setoid_rewrite Hin.
  split.
  - intros [(s & -> & Hs & Hst) Hb]. eauto 6.
  - intros [Hb (s & Hs & <- & Hst)]. eauto 6.
Qed.


Lemma insert_by_key_perm {A} (x : (Z * pynum) * A) l :
  insert_by_key x l ≡ₚ x :: l.
Proof.
  induction l as [|y l IH]; simpl; [done|].
  destruct (key_lt _ _); [|done]. by rewrite IH, Permutation_swap.
Qed.

Lemma insertion_sort_perm {A} (l : list ((Z * pynum) * A)) :
  insertion_sort l ≡ₚ l.*2.
Proof.
  unfold insertion_sort. apply fmap_Permutation.
  induction l as [|x l IH]; simpl; [done|].
  by rewrite insert_by_key_perm, IH.
Qed.

Lemma summary_counts_witness :
  fs_total_stations sample_summary = length sample_records /\
  fs_major_flood sample_summary
    = length (with_status MAJOR_FLOOD sample_records) /\
  fs_minor_flood sample_summary
    = length (with_status MINOR_FLOOD sample_records) /\
  fs_alert sample_summary = length (with_status ALERT sample_records) /\
  fs_normal sample_summary = length (with_status NORMAL sample_records) /\
  fs_total_stations sample_summary =
    (fs_major_flood sample_summary + fs_minor_flood sample_summary +
     fs_alert sample_summary + fs_normal sample_summary +
     length (with_status NO_DATA sample_records) +
     length (with_status UNKNOWN sample_records))%nat.
Proof.
  apply (summary_counts insertion_sort). vm_compute. reflexivity.
Defined.

Lemma summary_text_level_witness :
  get_flooding_summary insertion_sort [on_parallel "X" "80.0"]
    [reading "X" (PStr "9.5") 2000] = Raise TypeError.
Proof.
  apply (summary_text_level insertion_sort _ _ [record_x] record_x).
  - vm_compute. reflexivity.
  - by left.
  - by right.
  - exists "9.5". by split.
Defined.

Lemma summary_flooding_witness :
  exists fs,
    flooding_summary_on insertion_sort sample_records = Ok fs /\
    fs_flooding_stations fs ≡ₚ
      flooding_row_of <$>
        (with_status MAJOR_FLOOD sample_records ++
         with_status MINOR_FLOOD sample_records) /\
    forall b, b ∈ fs_affected_basins fs <->
      b ≠ "" /\ exists s, s ∈ sample_records /\ st_basin s = b /\
        (st_status s = MAJOR_FLOOD \/ st_status s = MINOR_FLOOD).
Proof.
  apply summary_flooding.
  - apply @insertion_sort_perm.
  - repeat (apply Forall_cons_2;
              [intros _; split; [by intros (t & ? & ?)|done]|]).
    apply Forall_nil_2.
Defined.

(** ** The basin report *)

Section SortedBy.

Context {A : Type} (key : A -> Z).

Lemma insert_by_perm x l : insert_by key x l ≡ₚ x :: l.
Proof.
  induction l as [|y l IH]; simpl; [done|].
  destruct (key y <? key x); [|done]. by rewrite IH, Permutation_swap.
Qed.

Lemma sorted_by_perm l : sorted_by key l ≡ₚ l.
Proof.
  induction l as [|x l IH]; simpl; [done|].
  unfold sorted_by in *. simpl. by rewrite insert_by_perm, IH.
Qed.

Lemma insert_by_sorted x l :
  StronglySorted (fun a b => key a <= key b) l ->
  StronglySorted (fun a b => key a <= key b) (insert_by key x l).
Proof.
  induction 1 as [|y l Hs IH Hy]; simpl; [by repeat constructor|].
  destruct (Z.ltb_spec (key y) (key x)) as [Hlt|Hge].
  - constructor; [done|]. rewrite insert_by_perm.
    constructor; [lia|done].
  - constructor; [by constructor|]. constructor; [done|].
    eapply Forall_impl; [exact Hy|]. intros z Hz. simpl in *. lia.
Qed.

Lemma sorted_by_sorted l :
  StronglySorted (fun a b => key a <= key b) (sorted_by key l).
Proof.
  induction l as [|x l IH]; [constructor|].
  change (sorted_by key (x :: l)) with (insert_by key x (sorted_by key l)).
  by apply insert_by_sorted.
Qed.

Lemma insert_by_stable k x l :
  List.filter (fun a => key a =? k) (insert_by key x l)
  = List.filter (fun a => key a =? k) (x :: l).
Proof.
  induction l as [|y l IH]; [done|]. simpl in *.
  destruct (Z.ltb_spec (key y) (key x)) as [Hlt|Hge]; [|done].
  simpl. rewrite IH.
  destruct (Z.eqb_spec (key x) k), (Z.eqb_spec (key y) k); try done. lia.
Qed.

Lemma sorted_by_stable k l :
  List.filter (fun a => key a =? k) (sorted_by key l)
  = List.filter (fun a => key a =? k) l.
Proof.
  induction l as [|x l IH]; [done|].
  change (sorted_by key (x :: l)) with (insert_by key x (sorted_by key l)).
  rewrite insert_by_stable. simpl. by rewrite IH.
Qed.

End SortedBy.

Lemma basin_group_append label s groups b :
  basin_group (group_append label s groups) b
  = basin_group groups b ++ (if bool_decide (label = b) then [s] else []).
Proof.
  induction groups as [|[l g] groups IH]; simpl.
  - by case_bool_decide.
  - destruct (decide (l = label)) as [->|Hne].
    + rewrite bool_decide_eq_true_2 by done. simpl.
      case_bool_decide; [done|]. by rewrite app_nil_r.
    + rewrite (bool_decide_eq_false_2 (l = label)) by done. simpl.
      destruct (decide (l = b)) as [->|Hb].
      * rewrite (bool_decide_eq_true_2 (b = b)) by done.
        rewrite bool_decide_eq_false_2 by congruence. by rewrite app_nil_r.
      * by rewrite (bool_decide_eq_false_2 (l = b)) by done.
Qed.

Lemma keys_group_append label s groups :
  (group_append label s groups).*1
  = if bool_decide (label ∈ groups.*1) then groups.*1
    else groups.*1 ++ [label].
Proof.
  induction groups as [|[l g] groups IH]; [done|].
  cbn [group_append]. destruct (decide (l = label)) as [->|Hne].
  - rewrite bool_decide_eq_true_2 by done. rewrite !fmap_cons. cbn [fst].
    by rewrite bool_decide_eq_true_2 by left.
  - rewrite (bool_decide_eq_false_2 (l = label)) by done.
    rewrite !fmap_cons, IH. cbn [fst].
    destruct (decide (label ∈ groups.*1)) as [Hin|Hnin].
    + rewrite (bool_decide_eq_true_2 (label ∈ groups.*1)) by done.
      by rewrite bool_decide_eq_true_2 by (by right).
    + rewrite (bool_decide_eq_false_2 (label ∈ groups.*1)) by done.
      rewrite bool_decide_eq_false_2; [done|].
      intros [?|?]%elem_of_cons; congruence.
Qed.

Lemma by_basin_spec stations :
  NoDup (by_basin stations).*1 /\
  (forall b, b ∈ (by_basin stations).*1 <->
             exists s, s ∈ stations /\ basin_label s = b) /\
  (forall b, basin_group (by_basin stations) b = in_basin b stations).
Proof.
  unfold by_basin, in_basin.
  enough (forall groups,
            NoDup groups.*1 ->
            let r := foldl (fun groups s =>
                              group_append (basin_label s) s groups)
                       groups stations in
            NoDup r.*1 /\
            (forall b, b ∈ r.*1 <->
               b ∈ groups.*1 \/ exists s, s ∈ stations /\ basin_label s = b) /\
            (forall b, basin_group r b =
               basin_group groups b ++
               List.filter (fun s => bool_decide (basin_label s = b)) stations))
    as H.
  { destruct (H [] (NoDup_nil_2)) as (H1 & H2 & H3). split_and!; [done|..].
    - intros b. rewrite H2. simpl. rewrite elem_of_nil.
      split; [intros [[]|?]; done|intros ?; by right].
    - intros b. by rewrite H3. }
  induction stations as [|s stations IH]; intros groups Hnd; simpl.
  - split_and!; [done|..].
    + intros b. split; [intros ?; by left|].
      intros [?|(s' & Hs' & _)]; [done|]. by apply elem_of_nil in Hs'.
    + intros b. by rewrite app_nil_r.
  - destruct (IH (group_append (basin_label s) s groups)) as (H1 & H2 & H3).
    { rewrite keys_group_append. case_bool_decide; [done|].
      apply NoDup_app. split_and!; [done| |apply NoDup_singleton].
      intros x Hx ->%list_elem_of_singleton. done. }
    split_and!; [done|..].
    + intros b. rewrite H2, keys_group_append.
      setoid_rewrite elem_of_cons.
      case_bool_decide as E.
      * split; [intros [?|(s' & ? & ?)]; eauto 6|].
        intros [?|(s' & [Hs'|?] & <-)]; [by left| |eauto 6].
        subst s'. by left.
      * rewrite elem_of_app, list_elem_of_singleton.
        split.
        -- intros [[?|Hb]|(s' & ? & ?)]; [by left| |eauto 6].
           subst b. eauto 6.
        -- intros [?|(s' & [Hs'|?] & <-)]; [by left; left| |eauto 6].
           subst s'. by left; right.
    + intros b. rewrite H3, basin_group_append, <- app_assoc.
      by case_bool_decide.
Qed.

Lemma keys_groups (groups : list (string * list station_record)) :
  NoDup groups.*1 -> basin_group groups <$> groups.*1 = groups.*2.
Proof.
  induction groups as [|[l g] groups IH]; [done|].
  rewrite !fmap_cons. cbn [fst snd]. intros [Hl Hnd]%NoDup_cons.
  cbn [basin_group]. rewrite bool_decide_eq_true_2 by done. f_equal.
  rewrite <- IH by done. apply list_fmap_ext. intros i b Hb. cbn [basin_group].
  rewrite bool_decide_eq_false_2; [done|]. intros ->.
  apply Hl. by eapply list_elem_of_lookup_2.
Qed.

Lemma concat_perm {A} (f g : string -> list A) (l1 l2 : list string) :
  l1 ≡ₚ l2 -> (forall b, f b ≡ₚ g b) ->
  concat (f <$> l1) ≡ₚ concat (g <$> l2).
Proof.
  intros Hl Hfg. rewrite <- Hl. clear Hl l2.
  induction l1 as [|b l1 IH]; [done|].
  rewrite !fmap_cons. simpl. by rewrite Hfg, IH.
Qed.

Lemma concat_group_append label s groups :
  concat (group_append label s groups).*2 ≡ₚ s :: concat groups.*2.
Proof.
  induction groups as [|[l g] groups IH]; [done|].
  cbn [group_append]. case_bool_decide.
  - rewrite !fmap_cons. cbn [snd concat].
    rewrite <- app_assoc. simpl.
    by rewrite <- Permutation_middle.
  - rewrite !fmap_cons. cbn [snd concat]. rewrite IH.
    by rewrite <- Permutation_middle.
Qed.

Lemma concat_by_basin stations : concat (by_basin stations).*2 ≡ₚ stations.
Proof.
  unfold by_basin.
  enough (forall groups,
            concat (foldl (fun groups s =>
                             group_append (basin_label s) s groups)
                      groups stations).*2 ≡ₚ concat groups.*2 ++ stations)
    as H by apply (H []).
  induction stations as [|s stations IH]; intros groups; simpl.
  - by rewrite app_nil_r.
  - by rewrite IH, concat_group_append, <- Permutation_middle.
Qed.

(** X25: the dashboard groups the stations by basin label, the stripped
    basin or "Unknown" where that is empty: the labels of the groups are
    distinct, they are the labels that some station has, and the group of
    a label holds the stations with that label, in the order of the
    station list. *)
Theorem basin_groups stations :
  NoDup (by_basin stations).*1 /\
  (forall b, b ∈ (by_basin stations).*1 <->
             exists s, s ∈ stations /\ basin_label s = b) /\
  (forall b, basin_group (by_basin stations) b = in_basin b stations).
Proof. apply by_basin_spec. Qed.


Lemma mapM_inv {A B} (f : A -> result B) l bs :
  mapM f l = Ok bs -> Forall2 (fun a b => f a = Ok b) l bs.
Proof.
  revert bs. induction l as [|a l IH]; simpl; intros bs.
  - intros [= <-]. constructor.
  - unfold mbind, result_bind. destruct (f a) as [b|] eqn:Ea; [|done].
    destruct (mapM f l) as [bs'|]; [|done].
    intros [= <-]. constructor; [done|by apply IH].
Qed.

Lemma mapM_fmap {A B} (f : A -> result B) (g : A -> B) l :
  Forall (fun a => f a = Ok (g a)) l -> mapM f l = Ok (g <$> l).
Proof.
  induction 1 as [|a l Ha _ IH]; simpl; [done|].
  unfold mbind, result_bind. by rewrite Ha, IH.
Qed.

Lemma station_line_Ok s r :
  station_line s = Ok r <-> r = s /\ printable (st_water_level s).
Proof.
  unfold station_line, printable, mbind, result_bind.
  destruct (st_water_level s) as [|[]|z|f|t| |]; simpl;
    try (split; [by intros [= <-]|by intros [-> _]]).
  - destruct (Z.eqb_spec z 0) as [->|_]; simpl;
      [split; [by intros [= <-]|by intros [-> _]]|].
    destruct (F64.is_inf (F64.of_Z z));
      (split; [by intros [= <-]|by intros [-> ?]]).
  - destruct (SFeqb f F64.zero); simpl;
      (split; [by intros [= <-]|by intros [-> _]]).
  - case_bool_decide; simpl;
      (split; [by intros [= <-]|by intros [-> ?]]).
  - split; [done|by intros [_ ?]].
Qed.

Lemma station_lines_Ok l l' :
  mapM station_line l = Ok l' <->
  l' = l /\ Forall (fun s => printable (st_water_level s)) l.
Proof.
  split.
  - intros H%mapM_inv. induction H as [|s r l l' Hs _ [-> IH]]; [done|].
    apply station_line_Ok in Hs as [-> ?]. split; [done|by constructor].
  - intros [-> H]. rewrite <- (list_fmap_id l) at 2. apply mapM_fmap.
    eapply Forall_impl; [exact H|]. intros s Hs. by apply station_line_Ok.
Qed.

Lemma printable_key s :
  printable (st_water_level s) -> exists k, flooding_key s = Ok k.
Proof.
  unfold printable, flooding_key, neg_level, mbind, result_bind.
  destruct (st_water_level s) as [| | |f|t| |]; intros H.
  - by eexists.
  - by eexists.
  - by eexists.
  - destruct (SFeqb f F64.zero); by eexists.
  - rewrite H. by eexists.
  - done.
  - by eexists.
Qed.

Lemma in_basin_elem b stations s :
  s ∈ in_basin b stations <-> s ∈ stations /\ basin_label s = b.
Proof.
  unfold in_basin.
  rewrite list_elem_of_In, filter_In, <- list_elem_of_In, bool_decide_eq_true.
  done.
Qed.

(** The report of [main], when it is printed, is the listing, and it
    is printed exactly when every level can be. *)
Lemma basin_report_Ok stations report :
  basin_report stations = Ok report <->
  report = basin_listing stations /\
  Forall (fun s => printable (st_water_level s)) stations.
Proof.
  unfold basin_report, basin_listing. cbv zeta.
  rewrite !by_status_lookup.
  destruct (by_basin_spec stations) as (_ & Hkeys & Hg).
  assert (Hb : forall b, b ∈ sorted_basins stations <->
                         exists s, s ∈ stations /\ basin_label s = b).
  { intros b. rewrite <- Hkeys. unfold sorted_basins. cbv zeta.
    by rewrite sorted_by_perm. }
  set (f := fun basin =>
              lines ← mapM station_line
                        (sorted_by (fun s => station_severity (st_status s))
                           (basin_group (by_basin stations) basin));
              Ok (basin, lines)).
  set (g := fun basin =>
              (basin, sorted_by (fun s => station_severity (st_status s))
                        (in_basin basin stations))).
  split.
  - unfold mbind at 1, result_bind at 1.
    destruct (if _ : bool then _ else _) as [keys|]; [|done].
    intros H. apply mapM_inv in H.
    assert (Hall : Forall (fun b => f b = Ok (g b)) (sorted_basins stations) /\
                   Forall (fun s => printable (st_water_level s)) stations).
    { split.
      - apply Forall_forall. intros b Hin.
        destruct (proj1 (list_elem_of_lookup _ _) Hin) as [i Hi].
        destruct (Forall2_lookup_l _ _ _ _ _ H Hi) as (y & _ & Hy).
        unfold f, g, mbind, result_bind in *. rewrite Hg in *.
        destruct (mapM station_line _) as [lines|] eqn:El; [|done].
        by apply station_lines_Ok in El as [-> _].
      - apply Forall_forall. intros s Hs.
        assert (basin_label s ∈ sorted_basins stations) as Hin
          by (apply Hb; eauto).
        destruct (proj1 (list_elem_of_lookup _ _) Hin) as [i Hi].
        destruct (Forall2_lookup_l _ _ _ _ _ H Hi) as (y & _ & Hy).
        unfold f, mbind, result_bind in Hy. rewrite Hg in Hy.
        destruct (mapM station_line _) as [lines|] eqn:El; [|done].
        apply station_lines_Ok in El as [_ El].
        rewrite Forall_forall in El. apply El.
        rewrite sorted_by_perm. by apply in_basin_elem. }
    destruct Hall as [Hf Hp]. split; [|done].
    apply mapM_fmap in Hf.
    assert (mapM f (sorted_basins stations) = Ok report) as Hr.
    { clear Hf Hb. induction H as [|b y l l' Hy _ IH]; simpl; [done|].
      unfold mbind, result_bind. rewrite Hy, IH. done. }
    congruence.
  - intros [-> Hp].
    assert (exists keys,
              (if (0 <? length (with_status MAJOR_FLOOD stations))%nat ||
                  (0 <? length (with_status MINOR_FLOOD stations))%nat
               then mapM flooding_key
                      (with_status MAJOR_FLOOD stations ++
                       with_status MINOR_FLOOD stations)
               else Ok []) = Ok keys) as [keys ->].
    { destruct (_ || _); [|by eexists]. apply mapM_Ok.
      apply Forall_forall. intros s Hs. apply printable_key.
      rewrite Forall_forall in Hp. apply Hp.
      apply elem_of_app in Hs as [Hs|Hs];
        apply with_status_elem in Hs; by destruct Hs. }
    unfold mbind at 1, result_bind at 1.
    apply mapM_fmap. apply Forall_forall. intros b Hin.
    unfold f, g, mbind, result_bind. rewrite Hg.
    set (l := sorted_by (fun s => station_severity (st_status s))
                (in_basin b stations)).
    rewrite (proj2 (station_lines_Ok l l)); [done|].
    split; [done|]. unfold l. rewrite sorted_by_perm. apply Forall_forall.
    intros s [Hs _]%in_basin_elem. rewrite Forall_forall in Hp. by apply Hp.
Qed.

Lemma basin_listing_stations stations b l :
  (b, l) ∈ basin_listing stations ->
  l ≡ₚ in_basin b stations /\
  StronglySorted
    (fun s1 s2 => station_severity (st_status s1)
                  <= station_severity (st_status s2)) l /\
  forall st, with_status st l = with_status st (in_basin b stations).
Proof.
  unfold basin_listing.
  intros (b' & [= <- ->] & _)%list_elem_of_fmap.
  split_and!.
  - apply sorted_by_perm.
  - apply (sorted_by_sorted (fun s => station_severity (st_status s))).
  - intros st. unfold with_status.
    pose proof (sorted_by_stable (fun s => station_severity (st_status s))
                  (station_severity st) (in_basin b stations)) as H.
    erewrite (List.filter_ext _ (fun s => bool_decide (st_status s = st))) in H.
    + erewrite (List.filter_ext
                  (fun a => station_severity (st_status a)
                            =? station_severity st)
                  (fun s => bool_decide (st_status s = st))) in H; [exact H|].
      intros s. destruct (st_status s), st; done.
    + intros s. destruct (st_status s), st; done.
Qed.

Lemma basin_listing_once stations :
  (basin_listing stations).*1 = sorted_basins stations /\
  NoDup (basin_listing stations).*1 /\
  concat (basin_listing stations).*2 ≡ₚ stations.
Proof.
  destruct (by_basin_spec stations) as (Hnd & _ & Hg).
  assert (sorted_basins stations ≡ₚ (by_basin stations).*1) as Hp
    by apply sorted_by_perm.
  assert ((basin_listing stations).*1 = sorted_basins stations) as Hk.
  { unfold basin_listing. rewrite <- list_fmap_compose.
    erewrite list_fmap_ext; [by rewrite list_fmap_id|done]. }
  split_and!; [done|by rewrite Hk, Hp|].
  unfold basin_listing. rewrite <- list_fmap_compose.
  rewrite <- (concat_by_basin stations) at 2.
  rewrite <- (keys_groups (by_basin stations)) by done.
  apply (concat_perm _ _ _ _ Hp). intros b. simpl.
  by rewrite sorted_by_perm, Hg.
Qed.

(** X27: when the report of [main] is printed, the stations under each
    of its basins are the stations of that basin, each once, most severe
    first (major flood, minor flood, alert, normal, no data, unknown);
    stations of one status keep the order of the station list. *)
Theorem stations_by_severity stations report b l :
  basin_report stations = Ok report ->
  (b, l) ∈ report ->
  l ≡ₚ in_basin b stations /\
  StronglySorted
    (fun s1 s2 => station_severity (st_status s1)
                  <= station_severity (st_status s2)) l /\
  forall st, with_status st l = with_status st (in_basin b stations).
Proof.
  intros [-> _]%basin_report_Ok. apply basin_listing_stations.
Qed.

Lemma stations_by_severity_witness :
  let l := [station_in "S" "Kalu Ganga" MAJOR_FLOOD (PFloat (dec "10.81"));
            station_in "P" "Kalu Ganga" NORMAL (PFloat (dec "2.5"));
            station_in "U" "Kalu Ganga" NORMAL (PInt 3)] in
  l ≡ₚ in_basin "Kalu Ganga" sample_basins /\
  StronglySorted
    (fun s1 s2 => station_severity (st_status s1)
                  <= station_severity (st_status s2)) l /\
  forall st, with_status st l = with_status st (in_basin "Kalu Ganga" sample_basins).
Proof.
  apply (stations_by_severity sample_basins sample_report).
  - vm_compute. reflexivity.
  - apply (list_elem_of_lookup_2 _ 0%nat). reflexivity.
Defined.

(** X28: when every water level can be printed, the report of [main] is
    printed and lists every station of the station list exactly once: its
    basins are the sorted basins, they are distinct, and the station
    lists under them, together, are a rearrangement of the station
    list. *)
Theorem report_lists_each_station_once stations :
  Forall (fun s => printable (st_water_level s)) stations ->
  exists report,
    basin_report stations = Ok report /\
    report.*1 = sorted_basins stations /\
    NoDup report.*1 /\
    concat report.*2 ≡ₚ stations.
Proof.
  intros Hp. exists (basin_listing stations).
  split; [by apply basin_report_Ok|]. apply basin_listing_once.
Qed.

Lemma report_lists_each_station_once_witness :
  exists report,
    basin_report sample_basins = Ok report /\
    report.*1 = sorted_basins sample_basins /\
    NoDup report.*1 /\
    concat report.*2 ≡ₚ sample_basins.
Proof.
  apply report_lists_each_station_once.
  repeat (apply Forall_cons_2; [by vm_compute|]). apply Forall_nil_2.
Defined.

(** X29: a station whose water level cannot be printed (text that is not
    empty, an array or object with an element, or an integer beyond the
    range of a float) makes [main] raise before its report is complete. *)
Theorem report_unprintable_level stations s :
  s ∈ stations -> ~ printable (st_water_level s) ->
  exists e, basin_report stations = Raise e.
Proof.
  intros Hs Hn. destruct (basin_report stations) as [report|e] eqn:E;
    [|by eexists].
  apply basin_report_Ok in E as [_ Hp]. rewrite Forall_forall in Hp.
  destruct Hn. by apply Hp.
Qed.

Lemma report_unprintable_level_witness :
  exists e,
    basin_report
      [station_in "P" "Kalu Ganga" NORMAL (PFloat (dec "2.5"));
       station_in "Q" "" ALERT (PStr "8.0")] = Raise e.
Proof.
  apply (report_unprintable_level _ (station_in "Q" "" ALERT (PStr "8.0"))).
  - right. left.
  - by vm_compute.
Defined.
